(** * The dead-link checker of [.github/actions/check_dead_links]

    A shallow embedding of the JavaScript sources of the action (the current
    script and its earlier iterations) and the properties of its
    specification that were checked against it.

    JavaScript strings are rendered as [string], numbers that hold HTTP
    statuses and counters as [Z] and [nat], object literals as finite maps
    from property names to values, promises by their settled result, and the
    awaits of [main] by an explicit schedule of promise resolutions. *)

From Stdlib Require Import ZArith Ascii String List Bool Lia.
From stdpp Require Import base option list strings gmap.

Import ListNotations.
Local Open Scope string_scope.
Local Open Scope Z_scope.
Local Open Scope list_scope.

(** ** Strings *)

Module Str.

Fixpoint take (n : nat) (s : string) : string :=
  match n, s with
  | S n', String c s' => String c (take n' s')
  | _, _ => EmptyString
  end.

Fixpoint drop (n : nat) (s : string) : string :=
  match n, s with
  | S n', String _ s' => drop n' s'
  | _, _ => s
  end.

(** [s.substring(start, end)]: both indices are clamped to the length and
    swapped when [start > end]. *)
Definition substring (s : string) (i j : nat) : string :=
  let len := String.length s in
  let a := Nat.min i len in
  let b := Nat.min j len in
  take (Nat.max a b - Nat.min a b) (drop (Nat.min a b) s).

(** [s.substring(start)] *)
Definition substring_from (s : string) (i : nat) : string :=
  substring s i (String.length s).

Fixpoint contains (c : ascii) (s : string) : bool :=
  match s with
  | EmptyString => false
  | String d s' => Ascii.eqb d c || contains c s'
  end.

End Str.

(** ** Regular expressions

  The fragment of JavaScript regular expressions the scripts use: the
  anchors [^] and [$], a literal character [c] and a negated one-character
  class [[^c]], each taken once, optionally ([?]) or one or more times
  ([+]). Matching is the backtracking search of [RegExp.prototype.exec]:
  quantifiers are greedy and the leftmost match wins. No flag is set, so [$]
  is the end of the input. *)

Module Regex.

Inductive atom : Type :=
  | Chr (c : ascii)        (* c *)
  | NotChr (c : ascii).    (* [^c] *)

Inductive quant : Type := One | Opt | Plus.

Inductive item : Type :=
  | Bol                    (* ^ *)
  | Eol                    (* $ *)
  | Rep (a : atom) (q : quant).

Definition regex := list item.

Definition accepts (a : atom) (d : ascii) : bool :=
  match a with
  | Chr c => Ascii.eqb d c
  | NotChr c => negb (Ascii.eqb d c)
  end.

(** One or more characters accepted by [a], the longest run first, then
    [k] on what follows; the result is the number of characters consumed. *)
Fixpoint plus (a : atom) (k : string -> option nat) (s : string) : option nat :=
  match s with
  | String d s' =>
      if accepts a d then
        match plus a k s' with
        | Some n => Some (S n)
        | None => S <$> k s'
        end
      else None
  | EmptyString => None
  end.

Definition one (a : atom) (k : string -> option nat) (s : string) : option nat :=
  match s with
  | String d s' => if accepts a d then S <$> k s' else None
  | EmptyString => None
  end.

(** [match_here re at0 s]: the length of the match of [re] at the head of
    [s], where [at0] tells whether the head of [s] is index 0 of the
    input. *)
Fixpoint match_here (re : regex) (at0 : bool) (s : string) : option nat :=
  match re with
  | [] => Some 0%nat
  | Bol :: re' => if at0 then match_here re' at0 s else None
  | Eol :: re' =>
      match s with
      | EmptyString => match_here re' at0 s
      | String _ _ => None
      end
  | Rep a One :: re' => one a (match_here re' false) s
  | Rep a Opt :: re' =>
      match one a (match_here re' false) s with
      | Some n => Some n
      | None => match_here re' at0 s
      end
  | Rep a Plus :: re' => plus a (match_here re' false) s
  end.

(** The leftmost match: its start index and its length. *)
Fixpoint search (re : regex) (at0 : bool) (s : string) : option (nat * nat) :=
  match match_here re at0 s with
  | Some n => Some (0%nat, n)
  | None =>
      match s with
      | String _ s' =>
          match search re false s' with
          | Some (i, n) => Some (S i, n)
          | None => None
          end
      | EmptyString => None
      end
  end.

Definition exec (re : regex) (s : string) : option (nat * nat) :=
  search re true s.

(** [re.test(s)] *)
Definition test (re : regex) (s : string) : bool :=
  match exec re s with Some _ => true | None => false end.

(** The expansion of a replacement string (GetSubstitution) for a regular
    expression without capture groups: [$$] is a dollar sign, [$&] the
    matched text, [$`] the text before the match and [$'] the text after
    it; any other character, a lone dollar sign included, stands for
    itself. *)
Fixpoint substitution (matched before after : string) (r : string) : string :=
  match r with
  | EmptyString => EmptyString
  | String "$" (String "$" r') =>
      String "$" (substitution matched before after r')
  | String "$" (String "&" r') =>
      matched +:+ substitution matched before after r'
  | String "$" (String "`" r') =>
      before +:+ substitution matched before after r'
  | String "$" (String "'" r') =>
      after +:+ substitution matched before after r'
  | String c r' => String c (substitution matched before after r')
  end.

(** [s.replace(re, replacement)] for a regular expression without the
    global flag: the first match only; [s] itself when there is none. *)
Definition replace (s : string) (re : regex) (replacement : string) : string :=
  match exec re s with
  | None => s
  | Some (i, n) =>
      let before := Str.take i s in
      let matched := Str.take n (Str.drop i s) in
      let after := Str.drop (i + n) s in
      before +:+ substitution matched before after replacement +:+ after
  end.

(** The literal characters of [s], one after the other. *)
Fixpoint literal (s : string) : regex :=
  match s with
  | EmptyString => []
  | String c s' => Rep (Chr c) One :: literal s'
  end.

End Regex.

Import Regex.

(** ** The path resolver (part_000, lines 151-164) *)

(** [/^https?:\/\//] *)
Definition re_url : regex :=
  Bol :: literal "http" ++ [Rep (Chr "s") Opt] ++ literal "://".

(** [/^\//] *)
Definition re_absolute : regex := [Bol; Rep (Chr "/") One].

(** [/\/?[^/]+$/] *)
Definition re_last_segment : regex :=
  [Rep (Chr "/") Opt; Rep (NotChr "/") Plus; Eol].

(** A path segment: not empty and without a slash. *)
Definition is_segment (s : string) : bool :=
  negb (String.eqb s "") && negb (Str.contains "/" s).

(** [resolvePath] (lines 153-159) *)
Definition resolvePath (from to : string) : string :=
  if test re_absolute to then to
  else replace from re_last_segment ("/" +:+ to).


(** ** Values, objects and promises *)

(** What a JavaScript [throw] or a rejected promise carries. *)
Inductive exn : Type :=
| Error (message : string)
| TypeError (message : string).

(** The values the scripts store in the properties of their objects. *)
Inductive jsval : Type :=
| undefined
| Num (n : Z)
| Text (s : string)
| Err (e : exn).

(** An object literal; reading a property it does not have gives
    [undefined]. *)
Abbreviation obj := (gmap string jsval).

Definition prop (o : obj) (k : string) : jsval := default undefined (o !! k).

(** The settled state of a promise. *)
Inductive result (A : Type) : Type :=
| Fulfilled (value : A)
| Rejected (reason : exn).

Arguments Fulfilled {A} value.
Arguments Rejected {A} reason.

(** ToNumber on the operand of a comparison with a number: [None] is NaN.
    The [status] property, the only operand the scripts compare, holds a
    number or is absent; the conversions of strings and error objects are
    not needed and are left at NaN. *)
Definition to_number (v : jsval) : option Z :=
  match v with
  | Num n => Some n
  | _ => None
  end.

(** [v < n] and [v >= n]: false as soon as an operand is NaN. *)
Definition js_lt (v : jsval) (n : Z) : bool :=
  match to_number v with Some a => a <? n | None => false end.

Definition js_ge (v : jsval) (n : Z) : bool :=
  match to_number v with Some a => a >=? n | None => false end.

(** ToBoolean *)
Definition truthy (v : jsval) : bool :=
  match v with
  | undefined => false
  | Num n => negb (n =? 0)
  | Text s => negb (String.eqb s "")
  | Err _ => true
  end.

(** ** The two verification strategies as requests to the outside *)

(** The [HTTPResponse] that [page.goto] resolves with, read through
    [response.status()]. *)
Record response : Type := { response_status : Z }.

(** The [Response] of node-fetch, read through its [status] property. *)
Record fetch_response : Type := { fetch_status : Z }.

Record request_init : Type :=
  { method : string; headers : list (string * string) }.

(** A link as [markdownLinkExtractor(markdown, true)] returns it; only its
    [href] is read. *)
Record link : Type := { href : string }.

(** The body of an [async] function of the scripts: it returns, throws, or
    awaits [cluster.execute(url)] or [fetch(url, init)] and goes on with the
    settled promise. *)
Inductive task (A : Type) : Type :=
| Ret (a : A)
| Throw (e : exn)
| Execute (url : string) (k : result response -> task A)
| Fetch (url : string) (init : request_init) (k : result fetch_response -> task A).

Arguments Ret {A} a.
Arguments Throw {A} e.
Arguments Execute {A} url k.
Arguments Fetch {A} url init k.

Fixpoint bind {A B : Type} (t : task A) (f : A -> task B) : task B :=
  match t with
  | Ret a => f a
  | Throw e => Throw e
  | Execute url k => Execute url (fun r => bind (k r) f)
  | Fetch url init k => Fetch url init (fun r => bind (k r) f)
  end.

(** [try { t } catch (e) { handler e }] *)
Fixpoint try_catch {A : Type} (t : task A) (handler : exn -> task A) : task A :=
  match t with
  | Ret a => Ret a
  | Throw e => handler e
  | Execute url k => Execute url (fun r => try_catch (k r) handler)
  | Fetch url init k => Fetch url init (fun r => try_catch (k r) handler)
  end.

(** [await p]: the value of a fulfilled promise, a throw of the reason of a
    rejected one. *)
Definition await {A : Type} (p : result A) : task A :=
  match p with
  | Fulfilled a => Ret a
  | Rejected e => Throw e
  end.

Definition cluster_execute (url : string) : task response :=
  Execute url await.

Definition fetch (url : string) (init : request_init) : task fetch_response :=
  Fetch url init await.

Notation "'do' x <- t1 ; t2" := (bind t1 (fun x => t2))
  (at level 10, x name, t1 at level 100, t2 at level 200).

(** What the outside answers: the promise [cluster.execute(url)] settles
    with, and the one [fetch(url, init)] settles with. *)
Record network : Type :=
  { on_execute : string -> result response;
    on_fetch : string -> request_init -> result fetch_response }.

Inductive event : Type :=
| Navigated (url : string)
| Probed (url : string) (init : request_init).

(** Running a task against a network: the requests it made, in order, and
    the settled state of the promise the [async] function returned. *)
Fixpoint run {A : Type} (net : network) (t : task A) : list event * result A :=
  match t with
  | Ret a => ([], Fulfilled a)
  | Throw e => ([], Rejected e)
  | Execute url k =>
      let '(evs, r) := run net (k (on_execute net url)) in
      (Navigated url :: evs, r)
  | Fetch url init k =>
      let '(evs, r) := run net (k (on_fetch net url init)) in
      (Probed url init :: evs, r)
  end.

Definition is_probe (e : event) : bool :=
  match e with Probed _ _ => true | Navigated _ => false end.

(** ** The summary helpers (part_000, lines 166-180) *)

Definition summaryEllipsis : string := "......".

Definition summaryLinkMaxLength : nat :=
  String.length ("https://d2mxu07abcdefg" +:+ summaryEllipsis +:+ "+at+2.24.55+PM.png").

Definition summarizeLink (link : string) : string :=
  let len := String.length link in
  if (len <=? summaryLinkMaxLength)%nat then link
  else
    let half := ((summaryLinkMaxLength - String.length summaryEllipsis) / 2)%nat in
    Str.substring link 0 half +:+ summaryEllipsis +:+ Str.substring_from link (len - half).

(** The lines the scripts write with [console.log], by what they tell. *)
Inductive line : Type :=
| Separator
| Searching (root : string)
| Found (files : nat)
| Setup (maxConcurrency : nat)
| Starting
| FileHeading (n : nat) (file : string) (countFileLinks : nat)
| LinkFailed (status original : jsval)
| PuppeteerError (error : jsval)
| LinkOk (status original : jsval)
| SummaryHeading
| Table (heading : list string) (rows : list (list jsval))
| Complete (countAllLinks pages errors : nat)
| Exiting (error : exn).

(** [array.forEach(f)] for a callback that changes a state and may throw: a
    throw ends the loop and keeps what was done before it. *)
Fixpoint forEach {S X : Type} (f : X -> S -> S * result unit) (xs : list X) (st : S)
  : S * result unit :=
  match xs with
  | [] => (st, Fulfilled tt)
  | x :: xs' =>
      match f x st with
      | (st', Fulfilled _) => forEach f xs' st'
      | (st', Rejected e) => (st', Rejected e)
      end
  end.

(** ** The current script (part_000) *)

Definition clusterMaxConcurrent : nat := 10.

Definition head_request : request_init :=
  {| method := "HEAD";
     headers :=
       [ ("Accept-Language", "en,en-US;q=0,5");
         ("Accept", "text/html,application/xhtml+xml,application/xml;q=0.9,/;q=0.8");
         ("User-Agent", "Mozilla/5.0 (Windows NT 10.0; Win64; x64) AppleWebKit/537.36 (KHTML, like Gecko) Chrome/74.0.3729.169 Safari/537.36") ] |}.

Section Script.

(** [process.env.GITHUB_WORKSPACE], [GITHUB_REPOSITORY] and [GITHUB_SHA] *)
Variables root repo sha : string.

Definition githubUrlFromPath (path : string) : string :=
  "https://github.com/" +:+ repo +:+ "/blob/" +:+ sha +:+ "/" +:+ path.

(** [path.replace(new RegExp(`^${root}\\/`), "")], for a [root] whose
    characters all stand for themselves in a regular expression, as the
    directory names of a workspace path do. *)
Definition stripRoot (path : string) : string :=
  replace path (Bol :: literal root ++ [Rep (Chr "/") One]) "".

(** The address a link is checked at (part_000, lines 121-124). *)
Definition target (file : string) (href : string) : string :=
  if negb (test re_url href) then githubUrlFromPath (resolvePath file href)
  else href.

(** [checkLink(cluster, file)] applied to a link (part_000, lines 117-149).
    The [try] block either returns the outcome of the navigation ([inl]) or
    is left through [catch] with [error] assigned ([inr]); the HEAD request
    after it is outside of any [try]. *)
Definition checkLink (file : string) (l : link) : task obj :=
  let original := href l in
  let href := target file (href l) in
  do attempt <-
    try_catch
      (do response <- cluster_execute href;
       Ret (inl {[ "status" := Num (response_status response);
                   "original" := Text original ]}))
      (fun puppeteerError => Ret (inr puppeteerError));
  match attempt with
  | inl outcome => Ret outcome
  | inr error =>
      do r <- fetch href head_request;
      Ret {[ "status" := Num (fetch_status r);
             "original" := Text original;
             "error" := Err error ]}
  end.

(** *** [main] (part_000, lines 24-101) *)

(** What [main] meets outside of itself: the files [glob] finds, whether the
    cluster could be launched and given its task, the text of each file, the
    links the extractor finds in a text, and the network that the check of
    the [j]-th link of the [i]-th file meets. *)
Record world : Type :=
  { glob : string -> result (list string);
    launch : result unit;
    readFile : string -> result string;
    markdownLinkExtractor : string -> list link;
    network_of : nat -> nat -> network }.

(** Where the [async] callback of [files.map] stands for one file: at
    [await readFile], at [await Promise.allSettled(checks)], or settled. *)
Inductive progress : Type :=
| AwaitRead
| AwaitChecks (links : list link)
| Settled (r : result unit).

(** The variables of [main] that its callbacks share, the console, and the
    progress of the callback of every file. *)
Record state : Type :=
  { countAllLinks : nat;
    countFiles : nat;
    allErrors : list obj;
    console : list line;
    checks : list progress }.

Definition log (l : line) (st : state) : state :=
  {| countAllLinks := countAllLinks st; countFiles := countFiles st;
     allErrors := allErrors st; console := console st ++ [l];
     checks := checks st |}.

Definition push_error (value : obj) (st : state) : state :=
  {| countAllLinks := countAllLinks st; countFiles := countFiles st;
     allErrors := allErrors st ++ [value]; console := console st;
     checks := checks st |}.

Definition add_links (n : nat) (st : state) : state :=
  {| countAllLinks := (countAllLinks st + n)%nat; countFiles := countFiles st;
     allErrors := allErrors st; console := console st;
     checks := checks st |}.

Definition next_file (st : state) : state :=
  {| countAllLinks := countAllLinks st; countFiles := S (countFiles st);
     allErrors := allErrors st; console := console st;
     checks := checks st |}.

Definition set_progress (i : nat) (p : progress) (st : state) : state :=
  {| countAllLinks := countAllLinks st; countFiles := countFiles st;
     allErrors := allErrors st; console := console st;
     checks := <[i := p]> (checks st) |}.

(** The callback of [completeChecks.forEach] (lines 66-77). An entry of
    [Promise.allSettled] for a rejected promise has no [value], and
    destructuring [undefined] throws. *)
Definition reportCheck (settled : result obj) (st : state) : state * result unit :=
  match settled with
  | Rejected _ =>
      (st, Rejected (TypeError "Cannot destructure 'value' as it is undefined."))
  | Fulfilled value =>
      let status := prop value "status" in
      let original := prop value "original" in
      let error := prop value "error" in
      if js_lt status 200 || js_ge status 300 then
        let st := log (LinkFailed status original) st in
        let st := if truthy error then log (PuppeteerError error) st else st in
        (push_error value st, Fulfilled tt)
      else
        (log (LinkOk status original) st, Fulfilled tt)
  end.

(** The promises of [links.map(checkFileLink)], settled. *)
Definition completeChecks (w : world) (i : nat) (file : string) (links : list link)
  : list (result obj) :=
  imap (fun j l => (run (network_of w i j) (checkLink (stripRoot file) l)).2) links.

(** A promise that the callback of a file awaits is settled and the callback
    resumes: the one of [readFile], or the one of [Promise.allSettled]. *)
Inductive resolution : Type :=
| ReadDone (i : nat)
| ChecksDone (i : nat).

(** The callback of [files.map] (lines 53-78) from one await to the next;
    [None] when the callback of file [i] is not waiting for [r]. *)
Definition resume (w : world) (files : list string) (r : resolution) (st : state)
  : option state :=
  match r with
  | ReadDone i =>
      match files !! i, checks st !! i with
      | Some file, Some AwaitRead =>
          match readFile w file with
          | Rejected e => Some (set_progress i (Settled (Rejected e)) st)
          | Fulfilled markdown =>
              let links := markdownLinkExtractor w markdown in
              let countFileLinks := length links in
              Some (set_progress i (AwaitChecks links) (add_links countFileLinks st))
          end
      | _, _ => None
      end
  | ChecksDone i =>
      match files !! i, checks st !! i with
      | Some file, Some (AwaitChecks links) =>
          let st :=
            next_file (log (FileHeading (countFiles st) (stripRoot file) (length links)) st) in
          let '(st, r) := forEach reportCheck (completeChecks w i file links) st in
          Some (set_progress i (Settled r) st)
      | _, _ => None
      end
  end.

Fixpoint resume_all (w : world) (files : list string) (sched : list resolution)
  (st : state) : option state :=
  match sched with
  | [] => Some st
  | r :: sched' =>
      match resume w files r st with
      | Some st' => resume_all w files sched' st'
      | None => None
      end
  end.

Definition is_settled (p : progress) : bool :=
  match p with Settled _ => true | _ => false end.

(** A string method called on a property: the property access throws on
    [undefined], and a number or an error object has no string method. *)
Definition as_string (v : jsval) : result string :=
  match v with
  | Text s => Fulfilled s
  | undefined => Rejected (TypeError "Cannot read properties of undefined")
  | _ => Rejected (TypeError "is not a function")
  end.

(** The callback of [allErrors.forEach] (lines 90-93), adding a row to the
    table. *)
Definition summaryRow (o : obj) (rows : list (list jsval))
  : list (list jsval) * result unit :=
  let status := prop o "status" in
  let original := prop o "original" in
  let file := prop o "file" in
  match as_string original with
  | Rejected e => (rows, Rejected e)
  | Fulfilled link =>
      match as_string file with
      | Rejected e => (rows, Rejected e)
      | Fulfilled path =>
          (rows ++ [[status; Text (summarizeLink link); Text (stripRoot path)]],
           Fulfilled tt)
      end
  end.

(** The handler of [unhandledRejection] (lines 19-22): [process.exit(1)]. *)
Definition unhandledRejection (out : list line) (error : exn) : list line * Z :=
  (out ++ [Exiting error], 1).

(** The summary (lines 83-100), ending in [process.exit(0)]. *)
Definition summary (st : state) : list line * Z :=
  let out := console st ++ [SummaryHeading] in
  match forEach summaryRow (allErrors st) [] with
  | (_, Rejected e) => unhandledRejection out e
  | (rows, Fulfilled _) =>
      (out ++ [Table ["HTTP"; "Link"; "File"] rows; Separator;
               Complete (countAllLinks st) (length (checks st)) (length (allErrors st))],
       0)
  end.

Definition initial (out : list line) (files : list string) : state :=
  {| countAllLinks := 0; countFiles := 1; allErrors := []; console := out;
     checks := (fun _ => AwaitRead) <$> files |}.

(** The state of [main] when [Promise.allSettled(checks)] is fulfilled, for
    the schedule [sched] of the resolutions in between; [None] when [sched]
    is not a schedule of this run to that point. *)
Definition settle (w : world) (files : list string) (out : list line)
  (sched : list resolution) : option state :=
  match resume_all w files sched (initial out files) with
  | Some st => if forallb is_settled (checks st) then Some st else None
  | None => None
  end.

(** [main]: what the console shows and the exit code of the process. *)
Definition main (w : world) (sched : list resolution) : option (list line * Z) :=
  let out := [Separator; Searching root] in
  match glob w (root +:+ "/**/*.md") with
  | Rejected e => Some (unhandledRejection out e)
  | Fulfilled files =>
      let out := out ++ [Found (length files); Separator; Setup clusterMaxConcurrent] in
      match launch w with
      | Rejected e => Some (unhandledRejection out e)
      | Fulfilled _ =>
          match settle w files (out ++ [Starting]) sched with
          | Some st => Some (summary st)
          | None => None
          end
      end
  end.

End Script.

(** ** An earlier iteration of the script (part_001, lines 1-127) *)

Module Part001.

Section Script.

Variables repo sha : string.

(** [checkLink] (part_001, lines 91-108): the HEAD request is made inside of
    the [catch] block, without headers. *)
Definition checkLink (file : string) (l : link) : task obj :=
  let original := href l in
  let href := target repo sha file (href l) in
  try_catch
    (do response <- cluster_execute href;
     Ret {[ "status" := Num (response_status response);
            "original" := Text original ]})
    (fun error =>
       do r <- fetch href {| method := "HEAD"; headers := [] |};
       Ret {[ "status" := Num (fetch_status r);
              "original" := Text original ]}).

End Script.

(** The counter and the console that the callback of [forEach] changes. *)
Record state : Type :=
  { countErrors : nat;
    console : list line }.

(** The callback of [completeChecks.forEach] (part_001, lines 60-68). *)
Definition reportCheck (settled : result obj) (st : state) : state * result unit :=
  match settled with
  | Rejected _ =>
      (st, Rejected (TypeError "Cannot destructure 'value' as it is undefined."))
  | Fulfilled value =>
      let status := prop value "status" in
      let original := prop value "original" in
      if js_lt status 200 || js_ge status 300 then
        ({| countErrors := countErrors st;
            console := console st ++ [LinkFailed status original] |},
         Fulfilled tt)
      else
        ({| countErrors := S (countErrors st);
            console := console st ++ [LinkOk status original] |},
         Fulfilled tt)
  end.

(** The report on one file whose checks are settled, and the closing line
    [`${countErrors} of ${countAllLinks} links resulted in errors.`] for a
    run over that one file. *)
Definition reportFile (completeChecks : list (result obj)) : state :=
  (forEach reportCheck completeChecks {| countErrors := 0; console := [] |}).1.

Definition closing (completeChecks : list (result obj)) : line :=
  Complete (length completeChecks) 1 (countErrors (reportFile completeChecks)).

End Part001.

(** ** The resolution rule in the words of the specification *)

(** The directory prefix of a path: all of it up to and including its last
    ["/"], nothing when it has none. *)
Fixpoint directory_prefix (s : string) : string :=
  match s with
  | EmptyString => EmptyString
  | String c s' =>
      if Ascii.eqb c "/" || Str.contains "/" s' then String c (directory_prefix s')
      else EmptyString
  end.

(** "Replace the last path segment of [sourceFile] with [href], preserving
    the directory prefix." *)
Definition replace_last_segment (sourceFile href : string) : string :=
  directory_prefix sourceFile +:+ href.

(** ** What is read off a run *)

(** The files of the per-file sections of a report, in the order of the
    report, and the numbers they are given. *)
Definition section_files (out : list line) : list string :=
  omap (fun l => match l with FileHeading _ file _ => Some file | _ => None end) out.

Definition section_numbers (out : list line) : list nat :=
  omap (fun l => match l with FileHeading n _ _ => Some n | _ => None end) out.

(** The lines that the callback of [completeChecks.forEach] writes. *)
Definition is_link_line (l : line) : bool :=
  match l with
  | LinkFailed _ _ | PuppeteerError _ | LinkOk _ _ => true
  | _ => false
  end.

(** The files in the order in which their checks completed. *)
Definition completions (sched : list resolution) : list nat :=
  omap (fun r => match r with ChecksDone i => Some i | ReadDone _ => None end) sched.

(** What [main] has written when it starts the checks of [files]. *)
Definition prelude (root : string) (files : list string) : list line :=
  [Separator; Searching root; Found (length files); Separator;
   Setup clusterMaxConcurrent; Starting].

(** The schedule that takes the files one after the other: a file is read
    and, when it could be read, its checks complete before the next file is
    read. *)
Fixpoint one_by_one (w : world) (i : nat) (files : list string) : list resolution :=
  match files with
  | [] => []
  | file :: files' =>
      match readFile w file with
      | Fulfilled _ => [ReadDone i; ChecksDone i]
      | Rejected _ => [ReadDone i]
      end ++ one_by_one w (S i) files'
  end.

(** The files that wait for their checks are files that were read. *)
Definition read_before_checks (w : world) (files : list string) (st : state) : Prop :=
  forall (i : nat) (links : list link),
    checks st !! i = Some (AwaitChecks links) ->
    exists file markdown : string,
      files !! i = Some file /\ readFile w file = Fulfilled markdown.

(** The statuses in [200, 300). *)
Definition is_2xx (s : Z) : bool := (200 <=? s) && (s <? 300).

Definition has_table (out : list line) : bool :=
  existsb (fun l => match l with Table _ _ => true | _ => false end) out.

Definition has_totals (out : list line) : bool :=
  existsb (fun l => match l with Complete _ _ _ => true | _ => false end) out.

(** ** Sample runs *)

Module Sample.

Definition root : string := "/github/workspace".
Definition repo : string := "reedspool/standard".
Definition sha : string := "0a1b2c3".

Definition answers (status : Z) : network :=
  {| on_execute := fun _ => Fulfilled {| response_status := status |};
     on_fetch := fun _ _ => Rejected (Error "fetch is not reached") |}.

(** Navigation fails and the HEAD request answers. *)
Definition head_only (status : Z) : network :=
  {| on_execute := fun _ => Rejected (Error "net::ERR_ABORTED");
     on_fetch := fun _ _ => Fulfilled {| fetch_status := status |} |}.

(** Neither strategy gets an answer. *)
Definition unreachable : network :=
  {| on_execute := fun _ => Rejected (Error "net::ERR_NAME_NOT_RESOLVED");
     on_fetch := fun _ _ => Rejected (Error "getaddrinfo ENOTFOUND") |}.

(** Two files: [README.md] with a relative and an absolute link,
    [docs/a.md] without links. Every check meets [net]. *)
Definition two_files (net : network) : world :=
  {| glob := fun _ => Fulfilled [root +:+ "/README.md"; root +:+ "/docs/a.md"];
     launch := Fulfilled tt;
     readFile := fun file => Fulfilled file;
     markdownLinkExtractor := fun markdown =>
       if String.eqb markdown (root +:+ "/README.md")
       then [ {| href := "./x.md" |}; {| href := "https://example.com/" |} ]
       else [];
     network_of := fun _ _ => net |}.

(** One file with one absolute link. *)
Definition one_link (net : network) : world :=
  {| glob := fun _ => Fulfilled [root +:+ "/README.md"];
     launch := Fulfilled tt;
     readFile := fun file => Fulfilled file;
     markdownLinkExtractor := fun _ => [ {| href := "https://example.com/" |} ];
     network_of := fun _ _ => net |}.

(** One file with two absolute links: the first is unreachable, the second
    answers 404. *)
Definition unreachable_then_dead : world :=
  {| glob := fun _ => Fulfilled [root +:+ "/README.md"];
     launch := Fulfilled tt;
     readFile := fun file => Fulfilled file;
     markdownLinkExtractor := fun _ =>
       [ {| href := "https://unreachable.example/" |};
         {| href := "https://example.com/missing" |} ];
     network_of := fun _ j => if (j =? 0)%nat then unreachable else answers 404 |}.

Definition in_order : list resolution :=
  [ReadDone 0; ReadDone 1; ChecksDone 0; ChecksDone 1].

Definition out_of_order : list resolution :=
  [ReadDone 0; ReadDone 1; ChecksDone 1; ChecksDone 0].

End Sample.

(** ** More that is read off the code *)

(** [s] begins with [p]. *)
Fixpoint starts_with (p s : string) : bool :=
  match p, s with
  | EmptyString, _ => true
  | String a p', String b s' => Ascii.eqb b a && starts_with p' s'
  | String _ _, EmptyString => false
  end.

(** The characters that do not stand for themselves in the source of a
    regular expression. *)
Definition is_metachar (c : ascii) : bool :=
  existsb (Ascii.eqb c)
    ["\"; "^"; "$"; "."; "|"; "?"; "*"; "+"; "("; ")"; "["; "]"; "{"; "}"]%char.

Fixpoint regex_plain (s : string) : bool :=
  match s with
  | EmptyString => true
  | String c s' => negb (is_metachar c) && regex_plain s'
  end.

(** The links of a file, none when it cannot be read. *)
Definition links_of (w : world) (file : string) : list link :=
  match readFile w file with
  | Fulfilled markdown => markdownLinkExtractor w markdown
  | Rejected _ => []
  end.

Definition total_links (w : world) (files : list string) : nat :=
  sum_list ((fun file => length (links_of w file)) <$> files).

(** The links of the files that still wait for their text. *)
Fixpoint unread_links (w : world) (files : list string) (ps : list progress) : nat :=
  match files, ps with
  | file :: files', AwaitRead :: ps' =>
      (length (links_of w file) + unread_links w files' ps')%nat
  | _ :: files', _ :: ps' => unread_links w files' ps'
  | _, _ => 0%nat
  end.

(** The hrefs of the link lines of a report, in the order of the report. *)
Definition reported_links (out : list line) : list jsval :=
  omap (fun l => match l with
                 | LinkOk _ original | LinkFailed _ original => Some original
                 | _ => None
                 end) out.

(** The status and the href of the links marked with a cross, in the order
    of the report. *)
Definition failed_lines (out : list line) : list (jsval * jsval) :=
  omap (fun l => match l with
                 | LinkFailed status original => Some (status, original)
                 | _ => None
                 end) out.

(** The mark of a link line agrees with its status: a check mark for a
    status in [200, 300), a cross for any other status. *)
Definition mark_follows_status (l : line) : bool :=
  match l with
  | LinkOk (Num s) _ => is_2xx s
  | LinkFailed (Num s) _ => negb (is_2xx s)
  | LinkOk _ _ | LinkFailed _ _ => false
  | _ => true
  end.

(** A change of the outcome of a settled check. *)
Definition on_outcome (f : obj -> obj) (r : result obj) : result obj :=
  match r with
  | Fulfilled o => Fulfilled (f o)
  | Rejected e => Rejected e
  end.

(** ** The iteration before the HEAD request (part_002, lines 1-93) *)

Module Part002.

(** The callback of [links.map] (part_002, lines 50-57): the href is
    navigated to as written, and a throw of the navigation is caught into an
    outcome of its own. *)
Definition check (l : link) : task obj :=
  try_catch
    (do response <- cluster_execute (href l);
     Ret {[ "status" := Num (response_status response);
            "href" := Text (href l) ]})
    (fun error =>
       Ret {[ "error" := Err error;
              "href" := Text (href l) ]}).

(** The line [`        - ${error || status}: ${href}`]. *)
Inductive entry : Type :=
| LinkLine (shown href : jsval).

Record state : Type :=
  { countErrors : nat;
    console : list entry }.

(** [a || b] *)
Definition js_or (a b : jsval) : jsval := if truthy a then a else b.

(** The callback of [completeChecks.forEach] (part_002, lines 65-69). *)
Definition reportCheck (settled : result obj) (st : state) : state * result unit :=
  match settled with
  | Rejected _ =>
      (st, Rejected (TypeError "Cannot destructure 'value' as it is undefined."))
  | Fulfilled value =>
      let error := prop value "error" in
      let status := prop value "status" in
      let href := prop value "href" in
      let st :=
        if truthy error
        then {| countErrors := S (countErrors st); console := console st |}
        else st in
      ({| countErrors := countErrors st;
          console := console st ++ [LinkLine (js_or error status) href] |},
       Fulfilled tt)
  end.

End Part002.

(** * Properties *)

(** ** Strings *)

#[local] Arguments String.append !s1 s2 : simpl nomatch.

Lemma append_nil_r (s : string) : s +:+ "" = s.
Proof. induction s as [|c s IH]; simpl; [reflexivity | now rewrite IH]. Qed.

Lemma append_assoc (a b c : string) : (a +:+ b) +:+ c = a +:+ (b +:+ c).
Proof. induction a as [|x a IH]; simpl; [reflexivity | now rewrite IH]. Qed.

Lemma length_append (a b : string) :
  String.length (a +:+ b) = (String.length a + String.length b)%nat.
Proof. induction a as [|x a IH]; simpl; [reflexivity | now rewrite IH]. Qed.

Lemma take_append (a b : string) : Str.take (String.length a) (a +:+ b) = a.
Proof. induction a as [|x a IH]; simpl; [now destruct b | now rewrite IH]. Qed.

Lemma drop_append (a b : string) : Str.drop (String.length a) (a +:+ b) = b.
Proof. induction a as [|x a IH]; simpl; [now destruct b | exact IH]. Qed.

Lemma take_all (s : string) : Str.take (String.length s) s = s.
Proof. induction s as [|c s IH]; simpl; [reflexivity | now rewrite IH]. Qed.

Lemma drop_all (s : string) : Str.drop (String.length s) s = "".
Proof. induction s as [|c s IH]; simpl; [reflexivity | exact IH]. Qed.

Lemma contains_append (c : ascii) (a b : string) :
  Str.contains c (a +:+ b) = Str.contains c a || Str.contains c b.
Proof.
  induction a as [|x a IH]; simpl; [reflexivity|].
  rewrite IH. now rewrite orb_assoc.
Qed.

(** ** The regular expressions of the resolver *)

(** A replacement string without a dollar sign stands for itself. *)
Lemma substitution_plain (matched before after r : string) :
  Str.contains "$" r = false -> substitution matched before after r = r.
Proof.
  induction r as [|c r IH]; [reflexivity|].
  cbn [Str.contains]. intros H. apply orb_false_elim in H as [Hc Hr].
  specialize (IH Hr).
  assert (Hstep : substitution matched before after (String c r)
                  = String c (substitution matched before after r)).
  { destruct c as [[] [] [] [] [] [] [] []]; try reflexivity; discriminate Hc. }
  rewrite Hstep. now rewrite IH.
Qed.

Lemma plus_to_end (s : string) :
  plus (NotChr "/") (match_here [Eol] false) s
  = if is_segment s then Some (String.length s) else None.
Proof.
  induction s as [|d s IH]; [reflexivity|].
  unfold is_segment in *. cbn [plus accepts Str.contains String.eqb negb andb].
  destruct (Ascii.eqb d "/") eqn:Hd; cbn [negb orb]; [reflexivity|].
  rewrite IH. destruct s as [|e s]; [reflexivity|].
  cbn [String.eqb negb andb].
  destruct (negb (Str.contains "/" (String e s))); reflexivity.
Qed.

(** [/\/?[^/]+$/] at the head of a string: an optional slash and a segment
    that reaches the end. *)
Lemma match_last_segment (at0 : bool) (s : string) :
  match_here re_last_segment at0 s
  = match s with
    | String "/" s' => if is_segment s' then Some (S (String.length s')) else None
    | _ => if is_segment s then Some (String.length s) else None
    end.
Proof.
  change (match_here re_last_segment at0 s)
    with (match one (Chr "/") (plus (NotChr "/") (match_here [Eol] false)) s with
          | Some n => Some n
          | None => plus (NotChr "/") (match_here [Eol] false) s
          end).
  destruct s as [|d s]; [reflexivity|].
  unfold one. cbn [accepts].
  destruct (Ascii.eqb d "/") eqn:Hd.
  - apply Ascii.eqb_eq in Hd. subst d.
    rewrite (plus_to_end s).
    destruct (is_segment s); [reflexivity|].
    reflexivity.
  - rewrite plus_to_end.
    destruct d as [[] [] [] [] [] [] [] []]; try reflexivity; discriminate Hd.
Qed.

Lemma is_segment_no_slash (s : string) :
  Str.contains "/" s = true -> is_segment s = false.
Proof. unfold is_segment. intros ->. now rewrite andb_false_r. Qed.

Lemma contains_slash_between (dir seg : string) :
  Str.contains "/" (dir +:+ "/" +:+ seg) = true.
Proof.
  rewrite contains_append.
  change ("/" +:+ seg) with (String "/" seg). cbn [Str.contains].
  change (Ascii.eqb "/" "/") with true. apply orb_true_r.
Qed.

Lemma search_cons (re : regex) (at0 : bool) (c : ascii) (s : string) :
  search re at0 (String c s)
  = match match_here re at0 (String c s) with
    | Some n => Some (0%nat, n)
    | None =>
        match search re false s with
        | Some (i, n) => Some (S i, n)
        | None => None
        end
    end.
Proof. reflexivity. Qed.

(** The leftmost match of [/\/?[^/]+$/] in [dir/seg] starts at the last
    slash. *)
Lemma search_last_segment_dir (at0 : bool) (dir seg : string) :
  is_segment seg = true ->
  search re_last_segment at0 (dir +:+ "/" +:+ seg)
  = Some (String.length dir, S (String.length seg)).
Proof.
  intros Hseg. revert at0.
  induction dir as [|c dir IH]; intros at0.
  - change ("" +:+ "/" +:+ seg) with (String "/" seg).
    rewrite search_cons, match_last_segment, Hseg. reflexivity.
  - change (String c dir +:+ "/" +:+ seg) with (String c (dir +:+ "/" +:+ seg)).
    rewrite search_cons, match_last_segment.
    assert (Hin := contains_slash_between dir seg).
    assert (Hnone : match c with
                    | "/"%char =>
                        if is_segment (dir +:+ "/" +:+ seg)
                        then Some (S (String.length (dir +:+ "/" +:+ seg)))
                        else None
                    | _ =>
                        if is_segment (String c (dir +:+ "/" +:+ seg))
                        then Some (String.length (String c (dir +:+ "/" +:+ seg)))
                        else None
                    end = None).
    { rewrite (is_segment_no_slash (dir +:+ "/" +:+ seg)) by exact Hin.
      rewrite (is_segment_no_slash (String c (dir +:+ "/" +:+ seg))).
      - destruct c as [[] [] [] [] [] [] [] []]; reflexivity.
      - cbn [Str.contains]. rewrite Hin. apply orb_true_r. }
    rewrite Hnone. rewrite IH. reflexivity.
Qed.

(** In a path without a slash the match is the whole path. *)
Lemma exec_last_segment_file (from : string) :
  is_segment from = true ->
  exec re_last_segment from = Some (0%nat, String.length from).
Proof.
  intros Hseg. unfold exec.
  assert (H : match_here re_last_segment true from = Some (String.length from)).
  { rewrite match_last_segment.
    destruct from as [|d s]; [discriminate Hseg|].
    rewrite Hseg.
    assert (Hd : Ascii.eqb d "/" = false).
    { unfold is_segment in Hseg. cbn [Str.contains] in Hseg.
      destruct (Ascii.eqb d "/"); [|reflexivity].
      cbn [orb negb] in Hseg. apply andb_prop in Hseg as [_ Hseg].
      discriminate Hseg. }
    destruct d as [[] [] [] [] [] [] [] []]; try reflexivity; discriminate Hd. }
  destruct from; [discriminate Hseg|]. rewrite search_cons, H. reflexivity.
Qed.

(** [/^\//] tests for a leading slash. *)
Lemma test_absolute (to : string) :
  test re_absolute to = match to with String "/" _ => true | _ => false end.
Proof.
  destruct to as [|d s]; [reflexivity|].
  unfold test, exec, re_absolute. rewrite search_cons.
  cbn [match_here one accepts].
  destruct (Ascii.eqb d "/") eqn:Hd.
  - apply Ascii.eqb_eq in Hd. subst d. reflexivity.
  - assert (Hnone : search [Bol; Rep (Chr "/") One] false s = None).
    { clear. induction s as [|e s IH]; [reflexivity|].
      rewrite search_cons. cbn [match_here]. now rewrite IH. }
    rewrite Hnone.
    destruct d as [[] [] [] [] [] [] [] []]; try reflexivity; discriminate Hd.
Qed.

Lemma directory_prefix_dir (dir seg : string) :
  Str.contains "/" seg = false ->
  directory_prefix (dir +:+ "/" +:+ seg) = dir +:+ "/".
Proof.
  intros Hseg. induction dir as [|c dir IH].
  - change ("" +:+ "/" +:+ seg) with (String "/" seg).
    cbn [directory_prefix]. cbn [Ascii.eqb Bool.eqb orb].
    destruct seg as [|e seg]; [reflexivity|].
    cbn [directory_prefix]. cbn [Str.contains] in Hseg.
    apply orb_false_elim in Hseg as [-> ->]. reflexivity.
  - change (String c dir +:+ "/" +:+ seg) with (String c (dir +:+ "/" +:+ seg)).
    cbn [directory_prefix].
    rewrite contains_slash_between, orb_true_r, IH. reflexivity.
Qed.

(** ** The path resolver *)

(** The resolver on a source file inside a directory. *)
Lemma resolvePath_in_directory (dir seg to : string) :
  is_segment seg = true ->
  test re_absolute to = false ->
  resolvePath (dir +:+ "/" +:+ seg) to
  = dir +:+ substitution ("/" +:+ seg) dir "" ("/" +:+ to).
Proof.
  intros Hseg Hto. unfold resolvePath, replace. rewrite Hto.
  unfold exec. rewrite (search_last_segment_dir true dir seg Hseg).
  cbv zeta. rewrite take_append, drop_append.
  replace (S (String.length seg)) with (String.length ("/" +:+ seg)) by reflexivity.
  rewrite take_all, <- length_append, drop_all, append_nil_r.
  reflexivity.
Qed.

(** The resolver on a source file at the scanned root. *)
Lemma resolvePath_at_root (from to : string) :
  is_segment from = true ->
  test re_absolute to = false ->
  resolvePath from to = "/" +:+ substitution from "" "" to.
Proof.
  intros Hseg Hto. unfold resolvePath, replace. rewrite Hto.
  rewrite (exec_last_segment_file from Hseg).
  cbn [Str.take Str.drop Nat.add]. rewrite take_all, drop_all.
  cbn [String.append]. rewrite append_nil_r.
  reflexivity.
Qed.

(** C7, as stated, fails: for a source file at the scanned root the
    resolver does not keep the (empty) directory prefix, and a dollar
    pattern in the href is expanded instead of being copied. *)
Lemma resolvePath_is_not_replace_last_segment :
  ~ (forall sourceFile href : string,
        test re_url href = false ->
        test re_absolute href = false ->
        resolvePath sourceFile href = replace_last_segment sourceFile href).
Proof.
  intros H. specialize (H "README.md" "./x.md" eq_refl eq_refl).
  vm_compute in H. discriminate H.
Qed.

Example resolvePath_expands_dollar_patterns :
  resolvePath "dir/file.md" "$&" = "dir//file.md"
  /\ replace_last_segment "dir/file.md" "$&" = "dir/$&".
Proof. split; reflexivity. Qed.

(** C7, amended: for every source file [dir/seg] with a non-empty last
    segment and every href that does not start with a slash and has no
    dollar sign, the resolver returns [dir/href]: the last segment is
    replaced by the href and the directory prefix is kept, textually and
    without normalisation. The test against [^https?://] is made by the
    caller and plays no part. *)
Theorem resolvePath_replaces_last_segment (dir seg href : string) :
  is_segment seg = true ->
  test re_absolute href = false ->
  Str.contains "$" href = false ->
  resolvePath (dir +:+ "/" +:+ seg) href = dir +:+ "/" +:+ href
  /\ resolvePath (dir +:+ "/" +:+ seg) href
     = replace_last_segment (dir +:+ "/" +:+ seg) href.
Proof.
  intros Hseg Habs Hplain.
  assert (E : resolvePath (dir +:+ "/" +:+ seg) href = dir +:+ "/" +:+ href).
  { rewrite (resolvePath_in_directory dir seg href Hseg Habs).
    change (substitution ("/" +:+ seg) dir "" ("/" +:+ href))
      with ("/" +:+ substitution ("/" +:+ seg) dir "" href).
    now rewrite substitution_plain. }
  split; [exact E|].
  rewrite E. unfold replace_last_segment.
  rewrite directory_prefix_dir.
  - now rewrite append_assoc.
  - unfold is_segment in Hseg. apply andb_prop in Hseg as [_ Hseg].
    now apply negb_true_iff in Hseg.
Qed.

Lemma resolvePath_replaces_last_segment_witness :
  resolvePath "dir/file.md" "./other.md" = "dir/./other.md".
Proof.
  exact (proj1 (resolvePath_replaces_last_segment "dir" "file.md" "./other.md"
                  eq_refl eq_refl eq_refl)).
Defined.

(** C10: for a source file without a slash and a relative href, the
    resolver answers a slash followed by the (expanded) href, which is the
    href itself when it has no dollar sign, and the address composed for the
    check has two slashes after the commit. *)
Theorem resolvePath_root_file_leading_slash (repo sha from href : string) :
  is_segment from = true ->
  test re_url href = false ->
  test re_absolute href = false ->
  resolvePath from href = "/" +:+ substitution from "" "" href
  /\ (Str.contains "$" href = false -> resolvePath from href = "/" +:+ href)
  /\ target repo sha from href
     = "https://github.com/" +:+ repo +:+ "/blob/" +:+ sha +:+ "//"
       +:+ substitution from "" "" href.
Proof.
  intros Hseg Hurl Habs.
  assert (E := resolvePath_at_root from href Hseg Habs).
  split; [exact E|]. split.
  - intros Hplain. rewrite E. now rewrite substitution_plain.
  - unfold target, githubUrlFromPath. rewrite Hurl, E. reflexivity.
Qed.

Lemma resolvePath_root_file_leading_slash_witness :
  resolvePath "README.md" "./x.md" = "/./x.md"
  /\ target Sample.repo Sample.sha "README.md" "./x.md"
     = "https://github.com/reedspool/standard/blob/0a1b2c3//./x.md".
Proof.
  destruct (resolvePath_root_file_leading_slash Sample.repo Sample.sha
              "README.md" "./x.md" eq_refl eq_refl eq_refl) as (_ & H1 & H2).
  split; [exact (H1 eq_refl) | exact H2].
Defined.

(** ** The link verifier *)

Lemma status_outside_2xx (s : Z) :
  js_lt (Num s) 200 || js_ge (Num s) 300 = negb (is_2xx s).
Proof.
  unfold js_lt, js_ge, is_2xx. cbn [to_number].
  destruct (Z.ltb_spec s 200), (Z.leb_spec 200 s), (Z.ltb_spec s 300);
    destruct (Z.geb_spec s 300); cbn; try reflexivity; lia.
Qed.

Section Verifier.

Variables repo sha : string.

(** The three ways a check can go. *)
Lemma run_checkLink (net : network) (file : string) (l : link) :
  run net (checkLink repo sha file l)
  = let url := target repo sha file (href l) in
    match on_execute net url with
    | Fulfilled response =>
        ([Navigated url],
         Fulfilled {[ "status" := Num (response_status response);
                      "original" := Text (href l) ]})
    | Rejected error =>
        match on_fetch net url head_request with
        | Fulfilled r =>
            ([Navigated url; Probed url head_request],
             Fulfilled {[ "status" := Num (fetch_status r);
                          "original" := Text (href l);
                          "error" := Err error ]})
        | Rejected e => ([Navigated url; Probed url head_request], Rejected e)
        end
    end.
Proof.
  unfold checkLink, cluster_execute, fetch.
  cbn [bind try_catch run]. cbv zeta.
  destruct (on_execute net (target repo sha file (href l))) as [response|error];
    cbn [await bind try_catch run]; [reflexivity|].
  destruct (on_fetch net (target repo sha file (href l)) head_request) as [r|e];
    cbn [await bind try_catch run]; reflexivity.
Qed.

Lemma prop_navigated (s : Z) (original : string) :
  prop ({[ "status" := Num s; "original" := Text original ]} : obj) "status" = Num s
  /\ prop ({[ "status" := Num s; "original" := Text original ]} : obj) "original"
     = Text original
  /\ prop ({[ "status" := Num s; "original" := Text original ]} : obj) "error"
     = undefined
  /\ prop ({[ "status" := Num s; "original" := Text original ]} : obj) "file"
     = undefined.
Proof. repeat split; reflexivity. Qed.

Lemma prop_probed (s : Z) (original : string) (e : exn) :
  let o : obj := {[ "status" := Num s; "original" := Text original; "error" := Err e ]} in
  prop o "status" = Num s
  /\ prop o "original" = Text original
  /\ prop o "error" = Err e
  /\ prop o "file" = undefined.
Proof. repeat split; reflexivity. Qed.

(** An outcome is one of the two object literals of [checkLink]. *)
Lemma checkLink_outcome_shape (net : network) (file : string) (l : link) (outcome : obj) :
  (run net (checkLink repo sha file l)).2 = Fulfilled outcome ->
  exists s : Z,
    outcome = {[ "status" := Num s; "original" := Text (href l) ]}
    \/ exists e : exn,
         outcome = {[ "status" := Num s; "original" := Text (href l); "error" := Err e ]}.
Proof.
  rewrite run_checkLink. cbv zeta.
  destruct (on_execute net _) as [response|error]; cbn [snd].
  - intros [= <-]. exists (response_status response). now left.
  - destruct (on_fetch net _ _) as [r|e]; cbn [snd]; [|discriminate].
    intros [= <-]. exists (fetch_status r). right. now exists error.
Qed.

(** C1: when the navigation returns a response, whatever its status, the
    outcome carries that status, no error, and the HEAD request is not made;
    the HEAD request is made exactly when the navigation throws; and when it
    then answers, the outcome carries its status. *)
Theorem checkLink_fallback_policy (net : network) (file : string) (l : link) :
  let url := target repo sha file (href l) in
  let requests := (run net (checkLink repo sha file l)).1 in
  let settled := (run net (checkLink repo sha file l)).2 in
  (forall response : response,
      on_execute net url = Fulfilled response ->
      requests = [Navigated url]
      /\ exists outcome : obj,
           settled = Fulfilled outcome
           /\ prop outcome "status" = Num (response_status response)
           /\ prop outcome "original" = Text (href l)
           /\ prop outcome "error" = undefined)
  /\ (existsb is_probe requests = true
      <-> exists error : exn, on_execute net url = Rejected error)
  /\ (forall (error : exn) (r : fetch_response),
         on_execute net url = Rejected error ->
         on_fetch net url head_request = Fulfilled r ->
         requests = [Navigated url; Probed url head_request]
         /\ exists outcome : obj,
              settled = Fulfilled outcome
              /\ prop outcome "status" = Num (fetch_status r)
              /\ prop outcome "original" = Text (href l)).
Proof.
  cbv zeta. rewrite run_checkLink. cbv zeta.
  split; [|split].
  - intros response ->. cbn [fst snd]. split; [reflexivity|].
    eexists. split; [reflexivity|]. repeat split; reflexivity.
  - destruct (on_execute net _) as [response|error].
    + cbn [fst existsb is_probe orb]. split; [discriminate|].
      intros [error H]. discriminate H.
    + split; [intros _; now exists error|]. intros _.
      destruct (on_fetch net _ _); reflexivity.
  - intros error r -> ->. cbn [fst snd]. split; [reflexivity|].
    eexists. split; [reflexivity|]. split; reflexivity.
Qed.

(** An error of the navigation alone never leaves the check: a rejected
    check is a check whose HEAD request failed after its navigation. *)
Lemma checkLink_rejects_only_with_fetch (net : network) (file : string) (l : link)
  (e : exn) :
  (run net (checkLink repo sha file l)).2 = Rejected e ->
  on_fetch net (target repo sha file (href l)) head_request = Rejected e
  /\ exists error : exn,
       on_execute net (target repo sha file (href l)) = Rejected error.
Proof.
  rewrite run_checkLink. cbv zeta.
  destruct (on_execute net _) as [response|error]; cbn [snd]; [discriminate|].
  destruct (on_fetch net _ _) as [r|e']; cbn [snd]; [discriminate|].
  intros [= <-]. split; [reflexivity | now exists error].
Qed.

(** C5 fails when both strategies fail: the promise of the check is
    rejected with the error of the HEAD request, so that there is no outcome;
    the callback that reports the checks of the file throws on it, before it
    has written a line or recorded a failure. *)
Theorem checkLink_rejects_when_both_fail (net : network) (file : string) (l : link)
  (error final : exn) (st : state) :
  on_execute net (target repo sha file (href l)) = Rejected error ->
  on_fetch net (target repo sha file (href l)) head_request = Rejected final ->
  (run net (checkLink repo sha file l)).2 = Rejected final
  /\ exists message : string,
       reportCheck (run net (checkLink repo sha file l)).2 st
       = (st, Rejected (TypeError message)).
Proof.
  intros H1 H2. rewrite run_checkLink. cbv zeta. rewrite H1, H2. cbn [snd].
  split; [reflexivity|]. eexists. reflexivity.
Qed.

(** C6: an outcome of the verifier always has a status, so that status and
    error are never both missing; and [main] decides between success and
    failure by the status alone, also when the error of the navigation is
    kept next to the status of the HEAD request. *)
Theorem checkLink_outcome_status_decides (net : network) (file : string) (l : link)
  (outcome : obj) (st : state) :
  (run net (checkLink repo sha file l)).2 = Fulfilled outcome ->
  exists s : Z,
    prop outcome "status" = Num s
    /\ (prop outcome "status" <> undefined \/ prop outcome "error" <> undefined)
    /\ (is_2xx s = true ->
        reportCheck (Fulfilled outcome) st
        = (log (LinkOk (Num s) (prop outcome "original")) st, Fulfilled tt))
    /\ (is_2xx s = false ->
        allErrors (reportCheck (Fulfilled outcome) st).1 = allErrors st ++ [outcome]
        /\ In (LinkFailed (Num s) (prop outcome "original"))
             (console (reportCheck (Fulfilled outcome) st).1)).
Proof.
  intros H. apply checkLink_outcome_shape in H as [s H]. exists s.
  assert (Hs : prop outcome "status" = Num s).
  { destruct H as [-> | [e ->]]; reflexivity. }
  split; [exact Hs|]. split; [left; rewrite Hs; discriminate|].
  unfold reportCheck. rewrite Hs, status_outside_2xx.
  split; intros ->; cbn [negb]; [reflexivity|].
  split.
  - destruct (truthy (prop outcome "error")); reflexivity.
  - destruct (truthy (prop outcome "error")); cbn [push_error log console fst];
      rewrite ?in_app_iff; cbn [In]; auto.
Qed.

(** No outcome of the verifier has a [file] property. *)
Lemma checkLink_outcome_no_file (net : network) (file : string) (l : link)
  (outcome : obj) :
  (run net (checkLink repo sha file l)).2 = Fulfilled outcome ->
  prop outcome "file" = undefined.
Proof.
  intros H. apply checkLink_outcome_shape in H as [s [-> | [e ->]]]; reflexivity.
Qed.

(** C8 fails: no outcome of the verifier has the [file] property that the
    summary reads, so that the callback that builds the row of a failure
    throws in [stripRoot] and adds no row. *)
Theorem checkLink_outcome_without_file (root : string) (net : network)
  (file : string) (l : link) (outcome : obj) (rows : list (list jsval)) :
  (run net (checkLink repo sha file l)).2 = Fulfilled outcome ->
  prop outcome "file" = undefined
  /\ prop outcome "sourceFile" = undefined
  /\ exists message : string,
       summaryRow root outcome rows = (rows, Rejected (TypeError message)).
Proof.
  intros H. apply checkLink_outcome_shape in H as [s [-> | [e ->]]].
  - repeat split; try reflexivity. eexists. reflexivity.
  - repeat split; try reflexivity. eexists. reflexivity.
Qed.

End Verifier.

(** ** The run *)

Lemma link_lines_sections (lines : list line) :
  forallb is_link_line lines = true ->
  section_files lines = [] /\ section_numbers lines = []
  /\ has_table lines = false /\ has_totals lines = false.
Proof.
  induction lines as [|l lines IH]; [now repeat split|].
  cbn [forallb]. intros H. apply andb_prop in H as [Hl H].
  destruct (IH H) as (IH1 & IH2 & IH3 & IH4).
  unfold section_files, section_numbers, has_table, has_totals in *.
  destruct l; try discriminate Hl; cbn; auto.
Qed.

Lemma section_files_app (a b : list line) :
  section_files (a ++ b) = section_files a ++ section_files b.
Proof. apply omap_app. Qed.

Lemma section_numbers_app (a b : list line) :
  section_numbers (a ++ b) = section_numbers a ++ section_numbers b.
Proof. apply omap_app. Qed.

Lemma section_files_heading (n : nat) (file : string) (k : nat) (lines : list line) :
  section_files (FileHeading n file k :: lines) = file :: section_files lines.
Proof. reflexivity. Qed.

Lemma section_numbers_heading (n : nat) (file : string) (k : nat) (lines : list line) :
  section_numbers (FileHeading n file k :: lines) = n :: section_numbers lines.
Proof. reflexivity. Qed.

Lemma has_table_app (a b : list line) :
  has_table (a ++ b) = has_table a || has_table b.
Proof. unfold has_table. apply existsb_app. Qed.

Lemma has_totals_app (a b : list line) :
  has_totals (a ++ b) = has_totals a || has_totals b.
Proof. unfold has_totals. apply existsb_app. Qed.

(** What the report of the checks of a file changes: it writes link lines
    and records failures among the fulfilled checks, nothing else. *)
Lemma forEach_reportCheck (xs : list (result obj)) (st : state) :
  exists (lines : list line) (errs : list obj),
    console (forEach reportCheck xs st).1 = console st ++ lines
    /\ forallb is_link_line lines = true
    /\ allErrors (forEach reportCheck xs st).1 = allErrors st ++ errs
    /\ Forall (fun o => In (Fulfilled o) xs) errs
    /\ countFiles (forEach reportCheck xs st).1 = countFiles st
    /\ countAllLinks (forEach reportCheck xs st).1 = countAllLinks st
    /\ checks (forEach reportCheck xs st).1 = checks st.
Proof.
  revert st. induction xs as [|x xs IH]; intros st.
  - exists [], []. cbn. rewrite !app_nil_r. repeat split. constructor.
  - cbn [forEach]. destruct x as [value|reason].
    + assert (Hstep : exists (st' : state) (lines : list line) (errs : list obj),
                 reportCheck (Fulfilled value) st = (st', Fulfilled tt)
                 /\ console st' = console st ++ lines
                 /\ forallb is_link_line lines = true
                 /\ allErrors st' = allErrors st ++ errs
                 /\ Forall (fun o => o = value) errs
                 /\ countFiles st' = countFiles st
                 /\ countAllLinks st' = countAllLinks st
                 /\ checks st' = checks st).
      { unfold reportCheck.
        destruct (js_lt _ 200 || js_ge _ 300).
        - destruct (truthy _).
          + eexists _, [_; _], [value]. split; [reflexivity|].
            cbn. rewrite <- app_assoc. repeat split. repeat constructor.
          + eexists _, [_], [value]. split; [reflexivity|].
            cbn. repeat split. repeat constructor.
        - eexists _, [_], []. split; [reflexivity|].
          cbn. rewrite app_nil_r. repeat split. constructor. }
      destruct Hstep as (st' & lines & errs & -> & Hc & Hl & He & Hv & Hf & Ha & Hk).
      destruct (IH st') as (lines' & errs' & Hc' & Hl' & He' & Hv' & Hf' & Ha' & Hk').
      exists (lines ++ lines'), (errs ++ errs').
      rewrite Hc', Hc, He', He, Hf', Hf, Ha', Ha, Hk', Hk, !app_assoc.
      repeat split.
      * rewrite forallb_app, Hl, Hl'. reflexivity.
      * apply Forall_app. split.
        -- eapply Forall_impl; [exact Hv|]. intros o ->. now left.
        -- eapply Forall_impl; [exact Hv'|]. intros o Ho. now right.
    + exists [], []. cbn. rewrite !app_nil_r. repeat split. constructor.
Qed.

(** The report of a file ends at its first rejected check: the checks after
    it get no line and record no failure. *)
Lemma forEach_reportCheck_rejected (xs ys : list (result obj)) (e : exn) (st : state) :
  Forall (fun x => exists value : obj, x = Fulfilled value) xs ->
  exists message : string,
    forEach reportCheck (xs ++ Rejected e :: ys) st
    = ((forEach reportCheck xs st).1, Rejected (TypeError message)).
Proof.
  intros Hxs. revert st. induction Hxs as [|x xs [value ->] _ IH]; intros st.
  - eexists. reflexivity.
  - cbn [app forEach].
    assert (Hok : exists st' : state,
               reportCheck (Fulfilled value) st = (st', Fulfilled tt)).
    { unfold reportCheck. destruct (js_lt _ 200 || js_ge _ 300); eexists; reflexivity. }
    destruct Hok as [st' ->]. apply IH.
Qed.

Section Run.

Variables root repo sha : string.
Variable w : world.
Variable files : list string.

(** Every fulfilled check of a file is an outcome of [checkLink]. *)
Lemma completeChecks_outcome (i : nat) (file : string) (links : list link) (o : obj) :
  In (Fulfilled o) (completeChecks root repo sha w i file links) ->
  exists (j : nat) (l : link),
    (run (network_of w i j) (checkLink repo sha (stripRoot root file) l)).2
    = Fulfilled o.
Proof.
  unfold completeChecks. intros H. apply list_elem_of_In in H.
  apply elem_of_lookup_imap in H as (j & l & -> & _). now exists j, l.
Qed.

(** One resolution: a file that was read writes nothing; a file whose checks
    are done writes its heading, numbered by arrival, and its link lines. *)
Lemma resume_step (r : resolution) (st st' : state) :
  resume root repo sha w files r st = Some st' ->
  match r with
  | ReadDone i =>
      console st' = console st /\ allErrors st' = allErrors st
      /\ countFiles st' = countFiles st
  | ChecksDone i =>
      exists (file : string) (n : nat) (lines : list line) (errs : list obj),
        files !! i = Some file
        /\ console st'
           = console st ++ FileHeading (countFiles st) (stripRoot root file) n :: lines
        /\ forallb is_link_line lines = true
        /\ allErrors st' = allErrors st ++ errs
        /\ Forall (fun o => prop o "file" = undefined) errs
        /\ countFiles st' = S (countFiles st)
  end.
Proof.
  destruct r as [i|i]; cbn [resume].
  - destruct (files !! i) as [file|]; [|discriminate].
    destruct (checks st !! i) as [[| |]|]; try discriminate.
    destruct (readFile w file); intros [= <-]; now repeat split.
  - destruct (files !! i) as [file|] eqn:Hfile; [|discriminate].
    destruct (checks st !! i) as [[|links|]|]; try discriminate.
    set (st0 := next_file (log _ st)).
    destruct (forEach_reportCheck (completeChecks root repo sha w i file links) st0)
      as (lines & errs & Hc & Hl & He & Hv & Hf & _ & _).
    destruct (forEach reportCheck _ st0) as [st1 r] eqn:E. cbn [fst] in *.
    intros [= <-]. exists file, (length links), lines, errs.
    cbn [set_progress console allErrors countFiles].
    rewrite Hc, He, Hf. subst st0. cbn [next_file log console allErrors countFiles].
    rewrite <- app_assoc. repeat split; try assumption.
    eapply Forall_impl; [exact Hv|]. intros o Ho. cbv beta in Ho.
    apply completeChecks_outcome in Ho as (j & l & Ho).
    exact (checkLink_outcome_no_file repo sha _ _ _ _ Ho).
Qed.

(** A schedule: the sections are written in the order of completion and
    numbered from the counter on; nothing but sections is written; and the
    recorded failures are outcomes of the verifier. *)
Lemma resume_all_report (sched : list resolution) (st st' : state) :
  resume_all root repo sha w files sched st = Some st' ->
  exists (lines : list line) (errs : list obj),
    console st' = console st ++ lines
    /\ section_files lines
       = stripRoot root <$> omap (fun i => files !! i) (completions sched)
    /\ section_numbers lines = seq (countFiles st) (length (completions sched))
    /\ length (omap (fun i => files !! i) (completions sched))
       = length (completions sched)
    /\ has_table lines = false /\ has_totals lines = false
    /\ allErrors st' = allErrors st ++ errs
    /\ Forall (fun o => prop o "file" = undefined) errs.
Proof.
  revert st. induction sched as [|r sched IH]; intros st.
  - intros [= <-]. exists [], []. cbn. rewrite !app_nil_r. repeat split. constructor.
  - cbn [resume_all]. destruct (resume root repo sha w files r st) as [st1|] eqn:E;
      [|discriminate].
    intros H. apply IH in H as (lines & errs & Hc & Hs & Hn & Hlen & Ht & Htot & He & Hv).
    apply resume_step in E. destruct r as [i|i].
    + destruct E as (Ec & Ee & Ef). exists lines, errs.
      rewrite Hc, Ec, He, Ee. rewrite Ef in Hn. now repeat split.
    + destruct E as (file & n & lines1 & errs1 & Hfile & Ec & El & Ee & Ev & Ef).
      destruct (link_lines_sections lines1 El) as (S1 & S2 & S3 & S4).
      exists (FileHeading (countFiles st) (stripRoot root file) n :: lines1 ++ lines),
        (errs1 ++ errs).
      rewrite Hc, Ec, He, Ee, <- !app_assoc.
      change (completions (ChecksDone i :: sched)) with (i :: completions sched).
      assert (Hfiles : omap (fun i => files !! i) (i :: completions sched)
                       = file :: omap (fun i => files !! i) (completions sched)).
      { change (omap (fun i => files !! i) (i :: completions sched))
          with (match files !! i with
                | Some f => f :: omap (fun i => files !! i) (completions sched)
                | None => omap (fun i => files !! i) (completions sched)
                end).
        now rewrite Hfile. }
      rewrite Hfiles.
      repeat split.
      * rewrite section_files_heading, section_files_app, S1, Hs. reflexivity.
      * rewrite section_numbers_heading, section_numbers_app, S2, Hn, Ef. reflexivity.
      * cbn [length]. now rewrite Hlen.
      * change (has_table (FileHeading (countFiles st) (stripRoot root file) n
                           :: lines1 ++ lines))
          with (has_table (lines1 ++ lines)).
        now rewrite has_table_app, S3, Ht.
      * change (has_totals (FileHeading (countFiles st) (stripRoot root file) n
                            :: lines1 ++ lines))
          with (has_totals (lines1 ++ lines)).
        now rewrite has_totals_app, S4, Htot.
      * now apply Forall_app.
Qed.

End Run.

(** ** Schedules *)

Section Schedules.

Variables root repo sha : string.
Variable w : world.
Variable files : list string.

(** What one resolution does to the progress of the files. *)
Lemma resume_progress (r : resolution) (st st' : state) :
  resume root repo sha w files r st = Some st' ->
  match r with
  | ReadDone i =>
      checks st !! i = Some AwaitRead
      /\ exists file : string,
           files !! i = Some file
           /\ ((exists markdown : string,
                   readFile w file = Fulfilled markdown
                   /\ checks st'
                      = <[i := AwaitChecks (markdownLinkExtractor w markdown)]> (checks st))
               \/ (exists e : exn,
                      readFile w file = Rejected e
                      /\ checks st' = <[i := Settled (Rejected e)]> (checks st)))
  | ChecksDone i =>
      (exists links : list link, checks st !! i = Some (AwaitChecks links))
      /\ exists x : result unit, checks st' = <[i := Settled x]> (checks st)
  end.
Proof.
  destruct r as [i|i]; cbn [resume].
  - destruct (files !! i) as [file|]; [|discriminate].
    destruct (checks st !! i) as [[| |]|]; try discriminate.
    destruct (readFile w file) as [markdown|e] eqn:Hread; intros [= <-];
      (split; [reflexivity|]); exists file; (split; [reflexivity|]).
    + left. now exists markdown.
    + right. now exists e.
  - destruct (files !! i) as [file|]; [|discriminate].
    destruct (checks st !! i) as [[|links|]|]; try discriminate.
    set (st0 := next_file (log _ st)).
    destruct (forEach_reportCheck (completeChecks root repo sha w i file links) st0)
      as (_ & _ & _ & _ & _ & _ & _ & _ & Hk).
    destruct (forEach reportCheck _ st0) as [st1 x]. cbn [fst] in Hk.
    intros [= <-]. split; [now exists links|]. exists x.
    cbn [set_progress checks]. now rewrite Hk.
Qed.

(** A resolution changes the progress of its own file only, and a file
    that is settled has no resolution left. *)
Lemma resume_other (r : resolution) (st st' : state) (j : nat) :
  resume root repo sha w files r st = Some st' ->
  r <> ReadDone j -> r <> ChecksDone j ->
  checks st' !! j = checks st !! j.
Proof.
  intros H Hr Hc. apply resume_progress in H. destruct r as [i|i].
  - destruct H as (_ & file & _ & [(markdown & _ & ->) | (e & _ & ->)]);
      apply list_lookup_insert_ne; congruence.
  - destruct H as (_ & x & ->). apply list_lookup_insert_ne; congruence.
Qed.

Lemma resume_length (r : resolution) (st st' : state) :
  resume root repo sha w files r st = Some st' ->
  length (checks st') = length (checks st).
Proof.
  intros H. apply resume_progress in H. destruct r as [i|i].
  - destruct H as (_ & file & _ & [(markdown & _ & ->) | (e & _ & ->)]);
      apply length_insert.
  - destruct H as (_ & x & ->). apply length_insert.
Qed.

Lemma resume_all_length (sched : list resolution) (st st' : state) :
  resume_all root repo sha w files sched st = Some st' ->
  length (checks st') = length (checks st).
Proof.
  revert st. induction sched as [|r sched IH]; intros st; cbn [resume_all].
  - now intros [= <-].
  - destruct (resume root repo sha w files r st) as [st1|] eqn:E; [|discriminate].
    intros H. rewrite (IH _ H). exact (resume_length _ _ _ E).
Qed.

(** The checks of a settled file do not complete again. *)
Lemma settled_not_completed (sched : list resolution) (st st' : state) (i : nat)
  (x : result unit) :
  resume_all root repo sha w files sched st = Some st' ->
  checks st !! i = Some (Settled x) ->
  ~ In i (completions sched).
Proof.
  revert st. induction sched as [|r sched IH]; intros st; cbn [resume_all].
  - intros _ _ [].
  - destruct (resume root repo sha w files r st) as [st1|] eqn:E; [|discriminate].
    intros H Hi.
    assert (Hr : r <> ReadDone i /\ r <> ChecksDone i).
    { pose proof (resume_progress _ _ _ E) as P. destruct r as [j|j].
      - split; [|discriminate]. intros [= ->].
        destruct P as (P & _). congruence.
      - split; [discriminate|]. intros [= ->].
        destruct P as ((links & P) & _). congruence. }
    destruct Hr as [Hr1 Hr2].
    assert (Hi1 : checks st1 !! i = Some (Settled x)).
    { rewrite (resume_other _ _ _ i E Hr1 Hr2). exact Hi. }
    specialize (IH st1 H Hi1).
    destruct r as [j|j]; [exact IH|].
    change (completions (ChecksDone j :: sched)) with (j :: completions sched).
    intros [-> | Hin]; [now apply Hr2 | now apply IH].
Qed.

(** The checks of a file complete at most once. *)
Lemma completions_NoDup (sched : list resolution) (st st' : state) :
  resume_all root repo sha w files sched st = Some st' ->
  NoDup (completions sched).
Proof.
  revert st. induction sched as [|r sched IH]; intros st; cbn [resume_all].
  - intros _. constructor.
  - destruct (resume root repo sha w files r st) as [st1|] eqn:E; [|discriminate].
    intros H. specialize (IH st1 H). destruct r as [i|i]; [exact IH|].
    change (completions (ChecksDone i :: sched)) with (i :: completions sched).
    apply NoDup_cons. split; [|exact IH].
    rewrite list_elem_of_In.
    destruct (resume_progress _ _ _ E) as ((links & Hl) & x & Hx).
    apply (settled_not_completed sched st1 st' i x H).
    rewrite Hx. apply list_lookup_insert_eq. eapply lookup_lt_Some. exact Hl.
Qed.

Lemma resume_read_before_checks (r : resolution) (st st' : state) :
  resume root repo sha w files r st = Some st' ->
  read_before_checks w files st -> read_before_checks w files st'.
Proof.
  intros E Hst j links Hj.
  assert (Hcase : (r <> ReadDone j /\ r <> ChecksDone j)
                  \/ r = ReadDone j \/ r = ChecksDone j).
  { destruct r as [i|i]; destruct (Nat.eq_dec i j) as [->|Hne]; auto;
      left; split; congruence. }
  destruct Hcase as [[Hr1 Hr2] | [-> | ->]].
  - rewrite (resume_other _ _ _ j E Hr1 Hr2) in Hj. exact (Hst j links Hj).
  - destruct (resume_progress _ _ _ E)
      as (Hw & file & Hfile & [(markdown & Hread & Hk) | (e & Hread & Hk)]).
    + now exists file, markdown.
    + rewrite Hk, list_lookup_insert_eq in Hj by (eapply lookup_lt_Some; exact Hw).
      discriminate Hj.
  - destruct (resume_progress _ _ _ E) as ((links' & Hw) & x & Hk).
    rewrite Hk, list_lookup_insert_eq in Hj by (eapply lookup_lt_Some; exact Hw).
    discriminate Hj.
Qed.

(** Only the checks of files that were read complete. *)
Lemma completed_was_read (sched : list resolution) (st st' : state) (i : nat) :
  resume_all root repo sha w files sched st = Some st' ->
  read_before_checks w files st ->
  In i (completions sched) ->
  exists file markdown : string,
    files !! i = Some file /\ readFile w file = Fulfilled markdown.
Proof.
  revert st. induction sched as [|r sched IH]; intros st; cbn [resume_all].
  - intros _ _ [].
  - destruct (resume root repo sha w files r st) as [st1|] eqn:E; [|discriminate].
    intros H Hst Hin.
    pose proof (resume_read_before_checks _ _ _ E Hst) as Hst1.
    destruct r as [j|j]; [exact (IH st1 H Hst1 Hin)|].
    change (completions (ChecksDone j :: sched)) with (j :: completions sched) in Hin.
    destruct Hin as [-> | Hin]; [|exact (IH st1 H Hst1 Hin)].
    destruct (resume_progress _ _ _ E) as ((links & Hl) & _).
    exact (Hst i links Hl).
Qed.

(** The checks of a file that was read complete before the file is
    settled. *)
Lemma read_is_completed (sched : list resolution) (st st' : state) (i : nat)
  (file markdown : string) (p : progress) (x : result unit) :
  resume_all root repo sha w files sched st = Some st' ->
  files !! i = Some file ->
  readFile w file = Fulfilled markdown ->
  checks st !! i = Some p ->
  is_settled p = false ->
  checks st' !! i = Some (Settled x) ->
  In i (completions sched).
Proof.
  intros H Hfile Hread. revert st p H.
  induction sched as [|r sched IH]; intros st p; cbn [resume_all].
  - intros [= <-] Hp Hns Hx. rewrite Hp in Hx. injection Hx as ->. discriminate Hns.
  - destruct (resume root repo sha w files r st) as [st1|] eqn:E; [|discriminate].
    intros H Hp Hns Hx.
    assert (Hcase : (r <> ReadDone i /\ r <> ChecksDone i)
                    \/ r = ReadDone i \/ r = ChecksDone i).
    { destruct r as [j|j]; destruct (Nat.eq_dec j i) as [->|Hne]; auto;
        left; split; congruence. }
    destruct Hcase as [[Hr1 Hr2] | [-> | ->]].
    + assert (Hin : In i (completions sched)).
      { apply (IH st1 p H); [|exact Hns|exact Hx].
        rewrite (resume_other _ _ _ i E Hr1 Hr2). exact Hp. }
      destruct r; [exact Hin | now right].
    + destruct (resume_progress _ _ _ E)
        as (Hw & file' & Hfile' & [(markdown' & _ & Hk) | (e & Hread' & _)]).
      * apply (IH st1 (AwaitChecks (markdownLinkExtractor w markdown')) H);
          [|reflexivity|exact Hx].
        rewrite Hk. apply list_lookup_insert_eq. eapply lookup_lt_Some. exact Hw.
      * congruence.
    + now left.
Qed.

Lemma resume_all_app (a b : list resolution) (st : state) :
  resume_all root repo sha w files (a ++ b) st
  = match resume_all root repo sha w files a st with
    | Some st' => resume_all root repo sha w files b st'
    | None => None
    end.
Proof.
  revert st. induction a as [|r a IH]; intros st; [reflexivity|].
  cbn [app resume_all].
  destruct (resume root repo sha w files r st) as [st1|]; [apply IH | reflexivity].
Qed.

(** A file that waits for its text can be read, and a file that waits for
    its checks can complete. *)
Lemma resume_read_enabled (i : nat) (file : string) (st : state) :
  files !! i = Some file ->
  checks st !! i = Some AwaitRead ->
  exists st' : state,
    resume root repo sha w files (ReadDone i) st = Some st'
    /\ checks st'
       = <[i := match readFile w file with
                | Fulfilled markdown => AwaitChecks (markdownLinkExtractor w markdown)
                | Rejected e => Settled (Rejected e)
                end]> (checks st).
Proof.
  intros Hfile Hwait. cbn [resume]. rewrite Hfile, Hwait.
  destruct (readFile w file); eexists; split; reflexivity.
Qed.

Lemma resume_checks_enabled (i : nat) (file : string) (links : list link) (st : state) :
  files !! i = Some file ->
  checks st !! i = Some (AwaitChecks links) ->
  exists (st' : state) (x : result unit),
    resume root repo sha w files (ChecksDone i) st = Some st'
    /\ checks st' = <[i := Settled x]> (checks st).
Proof.
  intros Hfile Hwait. cbn [resume]. rewrite Hfile, Hwait.
  set (st0 := next_file (log _ st)).
  destruct (forEach_reportCheck (completeChecks root repo sha w i file links) st0)
    as (_ & _ & _ & _ & _ & _ & _ & _ & Hk).
  destruct (forEach reportCheck _ st0) as [st1 x]. cbn [fst] in Hk.
  exists (set_progress i (Settled x) st1), x. split; [reflexivity|].
  cbn [set_progress checks]. now rewrite Hk.
Qed.

(** Taking the files one after the other settles all of them. *)
Lemma one_by_one_settles (done rest : list string) (ps : list progress) (st : state) :
  files = done ++ rest ->
  checks st = ps ++ ((fun _ => AwaitRead) <$> rest) ->
  length ps = length done ->
  forallb is_settled ps = true ->
  exists st' : state,
    resume_all root repo sha w files (one_by_one w (length done) rest) st = Some st'
    /\ forallb is_settled (checks st') = true.
Proof.
  revert done ps st. induction rest as [|file rest IH]; intros done ps st Hfiles Hk Hlen Hps.
  - exists st. split; [reflexivity|]. rewrite Hk. cbn. now rewrite app_nil_r.
  - change ((fun _ => AwaitRead) <$> file :: rest)
      with (AwaitRead :: ((fun _ : string => AwaitRead) <$> rest)) in Hk.
    assert (Hfile : files !! length done = Some file).
    { rewrite Hfiles. now apply list_lookup_middle. }
    assert (Hwait : checks st !! length done = Some AwaitRead).
    { rewrite Hk. now apply list_lookup_middle. }
    destruct (resume_read_enabled _ _ _ Hfile Hwait) as (st1 & E1 & K1).
    rewrite Hk, <- Hlen, (insert_app_r_alt ps _ (length ps)) in K1 by lia.
    replace (length ps - length ps)%nat with 0%nat in K1 by lia.
    cbn [one_by_one].
    assert (Hnext : exists (st2 : state) (x : result unit),
               resume_all root repo sha w files
                 (match readFile w file with
                  | Fulfilled _ => [ReadDone (length done); ChecksDone (length done)]
                  | Rejected _ => [ReadDone (length done)]
                  end) st = Some st2
               /\ checks st2
                  = ps ++ Settled x :: ((fun _ : string => AwaitRead) <$> rest)).
    { destruct (readFile w file) as [markdown|e].
      - assert (Hwait1 : checks st1 !! length done
                         = Some (AwaitChecks (markdownLinkExtractor w markdown))).
        { rewrite K1. now apply list_lookup_middle. }
        destruct (resume_checks_enabled _ _ _ _ Hfile Hwait1) as (st2 & x & E2 & K2).
        exists st2, x. cbn [resume_all]. rewrite E1, E2. split; [reflexivity|].
        rewrite K2, K1, <- Hlen, (insert_app_r_alt ps _ (length ps)) by lia.
        replace (length ps - length ps)%nat with 0%nat by lia. reflexivity.
      - exists st1, (Rejected e). cbn [resume_all]. rewrite E1.
        split; [reflexivity | exact K1]. }
    destruct Hnext as (st2 & x & E & K2).
    rewrite resume_all_app, E.
    replace (S (length done)) with (length (done ++ [file]))
      by (rewrite length_app; cbn; lia).
    apply (IH (done ++ [file]) (ps ++ [Settled x]) st2).
    + rewrite Hfiles, <- app_assoc. reflexivity.
    + rewrite K2, <- app_assoc. reflexivity.
    + rewrite !length_app. cbn. lia.
    + rewrite forallb_app, Hps. reflexivity.
Qed.

End Schedules.

Section Main.

Variables root repo sha : string.

(** A run without a fatal setup error is the summary of a settled state. *)
Lemma main_settled (w : world) (sched : list resolution) (files : list string)
  (out : list line * Z) :
  glob w (root +:+ "/**/*.md") = Fulfilled files ->
  launch w = Fulfilled tt ->
  main root repo sha w sched = Some out ->
  exists st : state,
    settle root repo sha w files (prelude root files) sched = Some st
    /\ out = summary root st.
Proof.
  intros Hglob Hlaunch. unfold main. cbv zeta. rewrite Hglob, Hlaunch.
  change (([Separator; Searching root]
           ++ [Found (length files); Separator; Setup clusterMaxConcurrent])
          ++ [Starting]) with (prelude root files).
  destruct (settle root repo sha w files (prelude root files) sched) as [st|];
    [|discriminate].
  intros [= <-]. now exists st.
Qed.

(** A settled state continues the prelude with sections only, and its
    failures are outcomes of the verifier. *)
Lemma settle_report (w : world) (sched : list resolution) (files : list string)
  (st : state) :
  settle root repo sha w files (prelude root files) sched = Some st ->
  exists lines : list line,
    console st = prelude root files ++ lines
    /\ section_files lines
       = stripRoot root <$> omap (fun i => files !! i) (completions sched)
    /\ section_numbers lines = seq 1 (length (completions sched))
    /\ has_table lines = false /\ has_totals lines = false
    /\ Forall (fun o => prop o "file" = undefined) (allErrors st).
Proof.
  unfold settle.
  destruct (resume_all root repo sha w files sched (initial (prelude root files) files))
    as [st'|] eqn:E; [|discriminate].
  destruct (forallb is_settled (checks st')); [|discriminate].
  intros [= <-].
  apply resume_all_report in E
    as (lines & errs & Hc & Hs & Hn & _ & Ht & Htot & He & Hv).
  exists lines. cbn [initial console allErrors countFiles] in *.
  rewrite He. cbn [app]. now repeat split.
Qed.

Lemma summary_without_failures (st : state) :
  allErrors st = [] ->
  summary root st
  = (console st ++ [SummaryHeading; Table ["HTTP"; "Link"; "File"] []; Separator;
                    Complete (countAllLinks st) (length (checks st)) 0],
     0).
Proof.
  intros H. unfold summary. rewrite H. cbn [forEach length].
  now rewrite <- app_assoc.
Qed.

Lemma summary_with_failures (st : state) :
  allErrors st <> [] ->
  Forall (fun o => prop o "file" = undefined) (allErrors st) ->
  exists message : string,
    summary root st
    = (console st ++ [SummaryHeading; Exiting (TypeError message)], 1).
Proof.
  intros Hne Hv. unfold summary.
  destruct (allErrors st) as [|o errs]; [contradiction|].
  apply Forall_cons in Hv as [Ho _].
  cbn [forEach]. unfold summaryRow. rewrite Ho.
  destruct (prop o "original"); cbn [as_string];
    eexists; unfold unhandledRejection; rewrite <- app_assoc; reflexivity.
Qed.

(** C3 holds for the exit code and fails for the report: a run without a
    fatal setup error exits with 0 when no failure was recorded, and then the
    table and the totals are written; when a failure was recorded, building
    its row throws, the process exits with 1 through the handler of unhandled
    rejections, and neither the table nor the totals are written. *)
Theorem main_exit_code (w : world) (sched : list resolution) (files : list string)
  (lines : list line) (code : Z) :
  glob w (root +:+ "/**/*.md") = Fulfilled files ->
  launch w = Fulfilled tt ->
  main root repo sha w sched = Some (lines, code) ->
  exists st : state,
    settle root repo sha w files (prelude root files) sched = Some st
    /\ (allErrors st = [] ->
        code = 0 /\ has_table lines = true /\ has_totals lines = true)
    /\ (allErrors st <> [] ->
        code = 1 /\ has_table lines = false /\ has_totals lines = false).
Proof.
  intros Hglob Hlaunch Hmain.
  destruct (main_settled w sched files _ Hglob Hlaunch Hmain) as (st & Hst & Hout).
  exists st. split; [exact Hst|].
  destruct (settle_report w sched files st Hst)
    as (body & Hc & _ & _ & Ht & Htot & Hv).
  split.
  - intros Hnone. rewrite (summary_without_failures st Hnone) in Hout.
    injection Hout as -> ->. rewrite has_table_app, has_totals_app.
    split; [reflexivity|]. split; cbn; apply orb_true_r.
  - intros Hsome. destruct (summary_with_failures st Hsome Hv) as [message E].
    rewrite E in Hout. injection Hout as -> ->.
    rewrite Hc, !has_table_app, !has_totals_app, Ht, Htot.
    split; [reflexivity|]. split; reflexivity.
Qed.

Lemma settle_inv (w : world) (sched : list resolution) (files : list string)
  (out : list line) (st : state) :
  settle root repo sha w files out sched = Some st ->
  resume_all root repo sha w files sched (initial out files) = Some st
  /\ forallb is_settled (checks st) = true.
Proof.
  unfold settle.
  destruct (resume_all root repo sha w files sched (initial out files)) as [st'|];
    [|discriminate].
  destruct (forallb is_settled (checks st')) eqn:Hall; [|discriminate].
  intros [= <-]. now split.
Qed.

(** Whatever the checks meet, a run without a fatal setup error comes to
    its summary: taking the files one after the other is a schedule of it. *)
Lemma main_finishes (w : world) (files : list string) :
  glob w (root +:+ "/**/*.md") = Fulfilled files ->
  launch w = Fulfilled tt ->
  exists (lines : list line) (code : Z),
    main root repo sha w (one_by_one w 0 files) = Some (lines, code).
Proof.
  intros Hglob Hlaunch. unfold main. cbv zeta. rewrite Hglob, Hlaunch.
  unfold settle.
  destruct (one_by_one_settles root repo sha w files [] files []
              (initial (([Separator; Searching root]
                         ++ [Found (length files); Separator;
                             Setup clusterMaxConcurrent]) ++ [Starting]) files)
              eq_refl eq_refl eq_refl eq_refl) as (st & E & Hall).
  cbn [length] in E. rewrite E, Hall.
  destruct (summary root st) as [lines code]. now exists lines, code.
Qed.

(** C4, amended: the report lists the per-file sections in the order in which
    the checks of the files complete, and numbers them from 1 in that order;
    the files whose checks complete are, each once, the files that could be
    read. *)
Theorem report_sections_in_completion_order (w : world) (sched : list resolution)
  (files : list string) (lines : list line) (code : Z) :
  glob w (root +:+ "/**/*.md") = Fulfilled files ->
  launch w = Fulfilled tt ->
  main root repo sha w sched = Some (lines, code) ->
  section_files lines
  = stripRoot root <$> omap (fun i => files !! i) (completions sched)
  /\ section_numbers lines = seq 1 (length (completions sched))
  /\ NoDup (completions sched)
  /\ (forall (i : nat) (file : string),
         files !! i = Some file ->
         In i (completions sched)
         <-> exists markdown : string, readFile w file = Fulfilled markdown).
Proof.
  intros Hglob Hlaunch Hmain.
  destruct (main_settled w sched files _ Hglob Hlaunch Hmain) as (st & Hst & Hout).
  destruct (settle_report w sched files st Hst)
    as (body & Hc & Hs & Hn & _ & _ & Hv).
  destruct (settle_inv w sched files _ st Hst) as (Hrun & Hall).
  assert (Hsum : exists tail : list line,
             lines = console st ++ tail
             /\ section_files tail = [] /\ section_numbers tail = []).
  { destruct (allErrors st) as [|o errs] eqn:He.
    - rewrite (summary_without_failures st He) in Hout. injection Hout as -> _.
      eexists. split; [reflexivity|]. split; reflexivity.
    - assert (Hne : allErrors st <> []) by (rewrite He; discriminate).
      rewrite <- He in Hv.
      destruct (summary_with_failures st Hne Hv) as [message E].
      rewrite E in Hout. injection Hout as -> _.
      eexists. split; [reflexivity|]. split; reflexivity. }
  destruct Hsum as (tail & -> & T1 & T2).
  rewrite Hc, !section_files_app, !section_numbers_app, T1, T2, Hs, Hn.
  rewrite !app_nil_r. split; [reflexivity|]. split; [reflexivity|].
  split; [exact (completions_NoDup root repo sha w files sched _ _ Hrun)|].
  intros i file Hfile.
  assert (Hinit : checks (initial (prelude root files) files) !! i = Some AwaitRead).
  { cbn [initial checks]. now rewrite list_lookup_fmap, Hfile. }
  split.
  - intros Hin.
    destruct (completed_was_read root repo sha w files sched _ _ i Hrun) as
      (file' & markdown & Hfile' & Hread); [|exact Hin|].
    + intros j links Hj. cbn [initial checks] in Hj.
      rewrite list_lookup_fmap in Hj. destruct (files !! j); discriminate Hj.
    + rewrite Hfile in Hfile'. injection Hfile' as <-. now exists markdown.
  - intros [markdown Hread].
    assert (Hlt : (i < length (checks st))%nat).
    { rewrite (resume_all_length root repo sha w files sched _ _ Hrun).
      cbn [initial checks]. rewrite length_fmap. eapply lookup_lt_Some. exact Hfile. }
    destruct (lookup_lt_is_Some_2 _ _ Hlt) as [q Hq].
    assert (Hset : is_settled q = true).
    { rewrite forallb_forall in Hall. apply Hall.
      apply list_elem_of_In. eapply list_elem_of_lookup_2. exact Hq. }
    destruct q as [| |x]; try discriminate Hset.
    exact (read_is_completed root repo sha w files sched _ _ i file markdown
             AwaitRead x Hrun Hfile Hread Hinit eq_refl Hq).
Qed.

End Main.

(** ** The runs of the samples *)

Lemma checkLink_fallback_policy_witness :
  (run (Sample.answers 404)
     (checkLink Sample.repo Sample.sha "README.md" {| href := "https://example.com/" |})).1
  = [Navigated "https://example.com/"]
  /\ (run (Sample.head_only 200)
        (checkLink Sample.repo Sample.sha "README.md" {| href := "https://example.com/" |})).1
     = [Navigated "https://example.com/"; Probed "https://example.com/" head_request].
Proof.
  split.
  - exact (proj1 (proj1 (checkLink_fallback_policy Sample.repo Sample.sha
                           (Sample.answers 404) "README.md"
                           {| href := "https://example.com/" |})
                    {| response_status := 404 |} eq_refl)).
  - exact (proj1 (proj2 (proj2 (checkLink_fallback_policy Sample.repo Sample.sha
                                  (Sample.head_only 200) "README.md"
                                  {| href := "https://example.com/" |}))
                    (Error "net::ERR_ABORTED") {| fetch_status := 200 |}
                    eq_refl eq_refl)).
Defined.

Lemma checkLink_rejects_when_both_fail_witness :
  (run Sample.unreachable
     (checkLink Sample.repo Sample.sha "README.md" {| href := "https://example.com/" |})).2
  = Rejected (Error "getaddrinfo ENOTFOUND").
Proof.
  exact (proj1 (checkLink_rejects_when_both_fail Sample.repo Sample.sha
                  Sample.unreachable "README.md" {| href := "https://example.com/" |}
                  (Error "net::ERR_NAME_NOT_RESOLVED") (Error "getaddrinfo ENOTFOUND")
                  (initial [] []) eq_refl eq_refl)).
Defined.

Lemma checkLink_outcome_status_decides_witness :
  exists s : Z,
    prop ({[ "status" := Num 200; "original" := Text "https://example.com/";
             "error" := Err (Error "net::ERR_ABORTED") ]} : obj) "status" = Num s
    /\ is_2xx s = true.
Proof.
  destruct (checkLink_outcome_status_decides Sample.repo Sample.sha
              (Sample.head_only 200) "README.md" {| href := "https://example.com/" |}
              _ (initial [] []) eq_refl) as (s & Hs & _).
  exists s. split; [exact Hs|].
  injection Hs as <-. reflexivity.
Defined.

Lemma checkLink_outcome_without_file_witness :
  prop ({[ "status" := Num 404; "original" := Text "https://example.com/" ]} : obj)
    "file" = undefined.
Proof.
  exact (proj1 (checkLink_outcome_without_file Sample.repo Sample.sha Sample.root
                  (Sample.answers 404) "README.md" {| href := "https://example.com/" |}
                  _ [] eq_refl)).
Defined.

(** A run with one dead link: the link is reported in the section of its
    file, the summary throws on its row, and the process exits with 1
    without the table and the totals. *)
Example dead_link_breaks_summary :
  main Sample.root Sample.repo Sample.sha (Sample.one_link (Sample.answers 404))
    [ReadDone 0; ChecksDone 0]
  = Some ([Separator; Searching "/github/workspace"; Found 1; Separator; Setup 10;
           Starting;
           FileHeading 1 "README.md" 1;
           LinkFailed (Num 404) (Text "https://example.com/");
           SummaryHeading;
           Exiting (TypeError "Cannot read properties of undefined")],
          1).
Proof. vm_compute. reflexivity. Qed.

(** A run with one link that neither strategy reaches: its section has no
    line for it, no failure is recorded, and the process exits with 0. *)
Example unreachable_link_is_not_reported :
  main Sample.root Sample.repo Sample.sha (Sample.one_link Sample.unreachable)
    [ReadDone 0; ChecksDone 0]
  = Some ([Separator; Searching "/github/workspace"; Found 1; Separator; Setup 10;
           Starting;
           FileHeading 1 "README.md" 1;
           SummaryHeading;
           Table ["HTTP"; "Link"; "File"] [];
           Separator;
           Complete 1 1 0],
          0).
Proof. vm_compute. reflexivity. Qed.

(** After an unreachable link the dead link of the same file is neither
    reported nor recorded. *)
Example dead_link_after_unreachable_link :
  main Sample.root Sample.repo Sample.sha Sample.unreachable_then_dead
    [ReadDone 0; ChecksDone 0]
  = Some ([Separator; Searching "/github/workspace"; Found 1; Separator; Setup 10;
           Starting;
           FileHeading 1 "README.md" 2;
           SummaryHeading;
           Table ["HTTP"; "Link"; "File"] [];
           Separator;
           Complete 2 1 0],
          0).
Proof. vm_compute. reflexivity. Qed.

Lemma main_exit_code_witness :
  exists st : state,
    settle Sample.root Sample.repo Sample.sha (Sample.one_link (Sample.answers 404))
      [Sample.root +:+ "/README.md"] (prelude Sample.root [Sample.root +:+ "/README.md"])
      [ReadDone 0; ChecksDone 0] = Some st
    /\ allErrors st <> []
    /\ has_table
         [Separator; Searching "/github/workspace"; Found 1; Separator;
          Setup 10; Starting; FileHeading 1 "README.md" 1;
          LinkFailed (Num 404) (Text "https://example.com/");
          SummaryHeading;
          Exiting (TypeError "Cannot read properties of undefined")] = false.
Proof.
  destruct (main_exit_code Sample.root Sample.repo Sample.sha
              (Sample.one_link (Sample.answers 404)) [ReadDone 0; ChecksDone 0]
              [Sample.root +:+ "/README.md"] _ _ eq_refl eq_refl
              dead_link_breaks_summary) as (st & Hst & _ & H).
  exists st. split; [exact Hst|].
  assert (Hne : allErrors st <> []).
  { vm_compute in Hst. injection Hst as <-. discriminate. }
  split; [exact Hne|]. exact (proj1 (proj2 (H Hne))).
Defined.

(** The two files of the sample, completing out of order. *)
Example two_files_out_of_order :
  main Sample.root Sample.repo Sample.sha (Sample.two_files (Sample.answers 200))
    Sample.out_of_order
  = Some ([Separator; Searching "/github/workspace"; Found 2; Separator; Setup 10;
           Starting;
           FileHeading 1 "docs/a.md" 0;
           FileHeading 2 "README.md" 2;
           LinkOk (Num 200) (Text "./x.md");
           LinkOk (Num 200) (Text "https://example.com/");
           SummaryHeading;
           Table ["HTTP"; "Link"; "File"] [];
           Separator;
           Complete 2 2 0],
          0).
Proof. vm_compute. reflexivity. Qed.

(** The same files completing in the order of their discovery. *)
Example two_files_in_order :
  main Sample.root Sample.repo Sample.sha (Sample.two_files (Sample.answers 200))
    Sample.in_order
  = Some ([Separator; Searching "/github/workspace"; Found 2; Separator; Setup 10;
           Starting;
           FileHeading 1 "README.md" 2;
           LinkOk (Num 200) (Text "./x.md");
           LinkOk (Num 200) (Text "https://example.com/");
           FileHeading 2 "docs/a.md" 0;
           SummaryHeading;
           Table ["HTTP"; "Link"; "File"] [];
           Separator;
           Complete 2 2 0],
          0).
Proof. vm_compute. reflexivity. Qed.

(** C4, as stated, fails: when the file without links completes first, its
    section comes first although it was discovered second. *)
Lemma report_not_in_discovery_order :
  ~ (forall (w : world) (sched : list resolution) (files : list string)
            (lines : list line) (code : Z),
        glob w (Sample.root +:+ "/**/*.md") = Fulfilled files ->
        launch w = Fulfilled tt ->
        main Sample.root Sample.repo Sample.sha w sched = Some (lines, code) ->
        section_files lines = stripRoot Sample.root <$> files).
Proof.
  intros H.
  specialize (H (Sample.two_files (Sample.answers 200)) Sample.out_of_order
                [Sample.root +:+ "/README.md"; Sample.root +:+ "/docs/a.md"]
                _ _ eq_refl eq_refl two_files_out_of_order).
  vm_compute in H. discriminate H.
Qed.

Lemma report_sections_in_completion_order_witness :
  section_files
    [Separator; Searching "/github/workspace"; Found 2; Separator; Setup 10; Starting;
     FileHeading 1 "docs/a.md" 0;
     FileHeading 2 "README.md" 2;
     LinkOk (Num 200) (Text "./x.md");
     LinkOk (Num 200) (Text "https://example.com/");
     SummaryHeading; Table ["HTTP"; "Link"; "File"] []; Separator; Complete 2 2 0]
  = ["docs/a.md"; "README.md"]
  /\ completions Sample.out_of_order = [1; 0]%nat.
Proof.
  destruct (report_sections_in_completion_order Sample.root Sample.repo Sample.sha
              (Sample.two_files (Sample.answers 200)) Sample.out_of_order
              [Sample.root +:+ "/README.md"; Sample.root +:+ "/docs/a.md"]
              _ _ eq_refl eq_refl two_files_out_of_order) as (H & _).
  split; [|reflexivity].
  rewrite H. vm_compute. reflexivity.
Defined.

(** ** The classification of outcomes *)

(** C2 fails in the iteration of part_001: the mark written for an outcome
    follows its status, but the counter of errors is incremented for the
    statuses in [200, 300) and for no other. *)
Theorem part001_counts_successes_as_errors (s : Z) (original : string)
  (st : Part001.state) :
  Part001.reportCheck
    (Fulfilled ({[ "status" := Num s; "original" := Text original ]} : obj)) st
  = if is_2xx s
    then ({| Part001.countErrors := S (Part001.countErrors st);
             Part001.console :=
               Part001.console st ++ [LinkOk (Num s) (Text original)] |},
          Fulfilled tt)
    else ({| Part001.countErrors := Part001.countErrors st;
             Part001.console :=
               Part001.console st ++ [LinkFailed (Num s) (Text original)] |},
          Fulfilled tt).
Proof.
  unfold Part001.reportCheck.
  change (prop {[ "status" := Num s; "original" := Text original ]} "status")
    with (Num s).
  change (prop {[ "status" := Num s; "original" := Text original ]} "original")
    with (Text original).
  rewrite status_outside_2xx. destruct (is_2xx s); reflexivity.
Qed.

(** One file with one link that answers 200: "1 of 1 links resulted in
    errors"; with one link that answers 404: "0 of 1". *)
Example part001_one_link :
  Part001.closing
    [(run (Sample.answers 200)
        (Part001.checkLink Sample.repo Sample.sha "README.md"
           {| href := "https://example.com/" |})).2]
  = Complete 1 1 1
  /\ Part001.closing
       [(run (Sample.answers 404)
           (Part001.checkLink Sample.repo Sample.sha "README.md"
              {| href := "https://example.com/" |})).2]
     = Complete 1 1 0.
Proof. split; vm_compute; reflexivity. Qed.

(** In the current script the statuses outside of [200, 300) are the
    failures; an object without a status would pass for a success, since
    both comparisons with [undefined] are false, but the verifier makes no
    such object. *)
Lemma reportCheck_by_status (value : obj) (s : Z) (st : state) :
  prop value "status" = Num s ->
  (reportCheck (Fulfilled value) st).1
  = if is_2xx s then log (LinkOk (Num s) (prop value "original")) st
    else push_error value
           (if truthy (prop value "error")
            then log (PuppeteerError (prop value "error"))
                   (log (LinkFailed (Num s) (prop value "original")) st)
            else log (LinkFailed (Num s) (prop value "original")) st).
Proof.
  intros Hs. unfold reportCheck. rewrite Hs, status_outside_2xx.
  destruct (is_2xx s); reflexivity.
Qed.

Example reportCheck_without_status (st : state) :
  reportCheck (Fulfilled ({[ "original" := Text "https://example.com/" ]} : obj)) st
  = (log (LinkOk undefined (Text "https://example.com/")) st, Fulfilled tt).
Proof. reflexivity. Qed.

(** * Further properties of the scripts *)

(** ** The shortened links of the summary (part_000, lines 166-180) *)

Lemma length_take (n : nat) (s : string) :
  String.length (Str.take n s) = Nat.min n (String.length s).
Proof.
  revert n. induction s as [|c s IH]; intros [|n]; cbn; try reflexivity.
  now rewrite IH.
Qed.

Lemma length_drop (n : nat) (s : string) :
  String.length (Str.drop n s) = (String.length s - n)%nat.
Proof.
  revert n. induction s as [|c s IH]; intros [|n]; cbn; try reflexivity.
  apply IH.
Qed.

Lemma take_drop (n : nat) (s : string) : Str.take n s +:+ Str.drop n s = s.
Proof.
  revert n. induction s as [|c s IH]; intros [|n]; cbn; try reflexivity.
  now rewrite IH.
Qed.

Lemma drop_drop (a b : nat) (s : string) :
  Str.drop a (Str.drop b s) = Str.drop (b + a) s.
Proof.
  revert b. induction s as [|c s IH]; intros [|b]; cbn.
  - now destruct a.
  - now destruct a.
  - reflexivity.
  - apply IH.
Qed.

Lemma substring_head (s : string) (j : nat) :
  (j <= String.length s)%nat -> Str.substring s 0 j = Str.take j s.
Proof.
  intros Hj. unfold Str.substring.
  rewrite (Nat.min_l j) by lia.
  change (Nat.min 0 (String.length s)) with 0%nat.
  rewrite Nat.max_r, Nat.min_l, Nat.sub_0_r by lia.
  now destruct s.
Qed.

Lemma substring_tail (s : string) (i : nat) :
  (i <= String.length s)%nat -> Str.substring_from s i = Str.drop i s.
Proof.
  intros Hi. unfold Str.substring_from, Str.substring.
  rewrite Nat.min_id, (Nat.min_l i) by lia.
  rewrite Nat.max_r, Nat.min_l by lia.
  rewrite <- (length_drop i s). apply take_all.
Qed.

(** The summary of a link that is too long, spelled out. *)
Lemma summarizeLink_cut (link : string) :
  (summaryLinkMaxLength < String.length link)%nat ->
  summarizeLink link
  = Str.take 20 link +:+ summaryEllipsis +:+ Str.drop (String.length link - 20) link.
Proof.
  change summaryLinkMaxLength with 46%nat. intros Hlong. unfold summarizeLink.
  change summaryLinkMaxLength with 46%nat.
  destruct (Nat.leb_spec (String.length link) 46); [lia|].
  change ((46 - String.length summaryEllipsis) / 2)%nat with 20%nat.
  rewrite substring_head, substring_tail by lia. reflexivity.
Qed.

(** X1: a summarized link is never longer than [summaryLinkMaxLength] (46):
    it has the length of the link when that is at most 46, and exactly 46
    otherwise. *)
Theorem summarizeLink_length (link : string) :
  String.length (summarizeLink link)
  = Nat.min (String.length link) summaryLinkMaxLength.
Proof.
  destruct (Nat.leb_spec (String.length link) summaryLinkMaxLength) as [Hshort|Hlong].
  - unfold summarizeLink.
    destruct (Nat.leb_spec (String.length link) summaryLinkMaxLength); [|lia].
    now rewrite Nat.min_l.
  - rewrite (summarizeLink_cut link Hlong).
    change summaryLinkMaxLength with 46%nat in *.
    rewrite Nat.min_r by lia.
    rewrite !length_append, length_take, length_drop.
    change (String.length summaryEllipsis) with 6%nat. lia.
Qed.

(** X2: a link longer than 46 is shown as its first 20 characters, the
    ellipsis of six dots and its last 20 characters: only its middle is
    replaced. *)
Theorem summarizeLink_keeps_head_and_tail (link : string) :
  (summaryLinkMaxLength < String.length link)%nat ->
  exists head middle tail : string,
    link = head +:+ middle +:+ tail
    /\ summarizeLink link = head +:+ "......" +:+ tail
    /\ String.length head = 20%nat
    /\ String.length tail = 20%nat.
Proof.
  intros Hlong.
  exists (Str.take 20 link), (Str.take (String.length link - 40) (Str.drop 20 link)),
    (Str.drop (String.length link - 20) link).
  change summaryLinkMaxLength with 46%nat in Hlong.
  split; [|split; [|split]].
  - replace (String.length link - 20)%nat with (20 + (String.length link - 40))%nat by lia.
    rewrite <- drop_drop, take_drop, take_drop. reflexivity.
  - apply summarizeLink_cut. exact Hlong.
  - rewrite length_take. lia.
  - rewrite length_drop. lia.
Qed.

Lemma summarizeLink_keeps_head_and_tail_witness :
  exists head middle tail : string,
    "https://example.com/a/very/long/path/to/some/page.html"
    = head +:+ middle +:+ tail
    /\ summarizeLink "https://example.com/a/very/long/path/to/some/page.html"
       = head +:+ "......" +:+ tail
    /\ String.length head = 20%nat
    /\ String.length tail = 20%nat.
Proof.
  apply (summarizeLink_keeps_head_and_tail
           "https://example.com/a/very/long/path/to/some/page.html").
  vm_compute. lia.
Defined.

(** X3: summarizing is idempotent: a summary is short enough to be shown as
    it is. *)
Theorem summarizeLink_idempotent (link : string) :
  summarizeLink (summarizeLink link) = summarizeLink link.
Proof.
  unfold summarizeLink at 1.
  destruct (Nat.leb_spec (String.length (summarizeLink link)) summaryLinkMaxLength)
    as [_|Hlong]; [reflexivity|].
  rewrite summarizeLink_length in Hlong. lia.
Qed.

(** ** Literal prefixes *)

Lemma starts_with_append (p q s : string) :
  starts_with (p +:+ q) s
  = starts_with p s && starts_with q (Str.drop (String.length p) s).
Proof.
  revert s. induction p as [|a p IH]; intros s.
  - cbn. now destruct s, q.
  - destruct s as [|b s]; [reflexivity|].
    cbn [String.append starts_with String.length Str.drop].
    rewrite IH. now rewrite andb_assoc.
Qed.

Lemma starts_with_self (p s : string) : starts_with p (p +:+ s) = true.
Proof.
  induction p as [|a p IH]; [reflexivity|].
  cbn [String.append starts_with]. now rewrite Ascii.eqb_refl, IH.
Qed.

Lemma literal_append (p q : string) : literal (p +:+ q) = literal p ++ literal q.
Proof. induction p as [|a p IH]; [reflexivity|]. cbn. now rewrite IH. Qed.

(** A literal, followed by [re], at the head of a string. *)
Lemma match_literal (p : string) (re : regex) (at0 : bool) (s : string) :
  match_here (literal p ++ re) at0 s
  = if starts_with p s
    then (fun n => (String.length p + n)%nat)
           <$> match_here re (match p with EmptyString => at0 | _ => false end)
                 (Str.drop (String.length p) s)
    else None.
Proof.
  revert at0 s. induction p as [|a p IH]; intros at0 s.
  - cbn [literal app starts_with String.length Str.drop].
    replace (Str.drop 0 s) with s by now destruct s.
    now destruct (match_here re at0 s).
  - cbn [literal app match_here]. destruct s as [|c s]; [reflexivity|].
    cbn [one accepts starts_with String.length Str.drop].
    destruct (Ascii.eqb c a); [|reflexivity]. cbn [andb].
    rewrite IH.
    replace (match p with EmptyString => false | String _ _ => false end)
      with false by now destruct p.
    destruct (starts_with p s); [|reflexivity].
    now destruct (match_here re false (Str.drop (String.length p) s)).
Qed.

(** An anchored expression matches at index 0 or not at all. *)
Lemma search_anchored_later (re : regex) (s : string) :
  search (Bol :: re) false s = None.
Proof.
  induction s as [|c s IH]; [reflexivity|].
  rewrite search_cons. cbn [match_here]. now rewrite IH.
Qed.

Lemma exec_anchored (re : regex) (s : string) :
  exec (Bol :: re) s
  = match match_here re true s with
    | Some n => Some (0%nat, n)
    | None => None
    end.
Proof.
  unfold exec. destruct s as [|c s].
  - reflexivity.
  - rewrite search_cons, search_anchored_later. reflexivity.
Qed.

(** [/^https?:\/\//] tests for one of the two scheme prefixes, in lower
    case. *)
Lemma test_url (href : string) :
  test re_url href = starts_with "http://" href || starts_with "https://" href.
Proof.
  unfold test, re_url. rewrite exec_anchored.
  rewrite (match_literal "http" _ true href).
  change "http://" with ("http" +:+ "://").
  change "https://" with ("http" +:+ "s" +:+ "://").
  rewrite !starts_with_append.
  destruct (starts_with "http" href); [|reflexivity]. cbn [andb].
  change (String.length "http") with 4%nat.
  set (t := Str.drop 4 href).
  change ([Rep (Chr "s") Opt] ++ literal "://")
    with (Rep (Chr "s") Opt :: literal "://" ++ []).
  cbn [match_here one].
  rewrite (match_literal "://" [] false t).
  destruct t as [|c t'] eqn:Ht.
  - reflexivity.
  - unfold one. cbn [accepts].
    replace (Str.drop (String.length "s") (String c t')) with t'
      by now destruct t'.
    rewrite (match_literal "://" [] false t').
    change (starts_with "s" (String c t')) with (Ascii.eqb c "s" && true).
    rewrite andb_true_r.
    destruct (Ascii.eqb c "s"); cbn [andb orb].
    + destruct (starts_with "://" t');
        destruct (starts_with "://" (String c t')); reflexivity.
    + destruct (starts_with "://" (String c t')); reflexivity.
Qed.

(** The expression of [stripRoot] matches the paths that begin with the
    root and a slash, and that beginning of them. *)
Lemma exec_root (root path : string) :
  exec (Bol :: literal root ++ [Rep (Chr "/") One]) path
  = if starts_with (root +:+ "/") path
    then Some (0%nat, S (String.length root))
    else None.
Proof.
  rewrite exec_anchored.
  change [Rep (Chr "/") One] with (literal "/" ++ []).
  rewrite app_assoc, <- literal_append.
  rewrite (match_literal (root +:+ "/") [] true path).
  destruct (starts_with (root +:+ "/") path); [|reflexivity].
  cbn [match_here fmap option_fmap option_map].
  rewrite length_append. cbn [String.length]. f_equal. f_equal. lia.
Qed.

Lemma stripRoot_cases (root path : string) :
  stripRoot root path
  = if starts_with (root +:+ "/") path
    then Str.drop (S (String.length root)) path
    else path.
Proof.
  unfold stripRoot, replace. rewrite exec_root.
  destruct (starts_with (root +:+ "/") path); reflexivity.
Qed.

Lemma stripRoot_under_root (root rest : string) :
  stripRoot root (root +:+ "/" +:+ rest) = rest.
Proof.
  rewrite stripRoot_cases.
  rewrite <- (append_assoc root "/" rest), starts_with_self.
  replace (S (String.length root)) with (String.length (root +:+ "/"))
    by (rewrite length_append; cbn; lia).
  apply drop_append.
Qed.

(** ** The address that is checked (part_000, lines 121-124 and 151-164) *)

(** X4: only an href that begins with [http://] or [https://], in lower
    case, is checked as it is written; every other href, a fragment, a
    [mailto:] address or an upper-case scheme included, is resolved against
    the source file and checked as a file of the repository at the commit. *)
Theorem target_cases (repo sha file href : string) :
  target repo sha file href
  = if starts_with "http://" href || starts_with "https://" href
    then href
    else "https://github.com/" +:+ repo +:+ "/blob/" +:+ sha +:+ "/"
         +:+ resolvePath file href.
Proof.
  unfold target. rewrite test_url.
  destruct (starts_with "http://" href || starts_with "https://" href); reflexivity.
Qed.

(** X5: whatever the source file and the href, the address handed to the
    two verification strategies begins with [http://] or [https://]. *)
Theorem target_is_http_url (repo sha file href : string) :
  starts_with "http://" (target repo sha file href)
  || starts_with "https://" (target repo sha file href) = true.
Proof.
  unfold target. destruct (test re_url href) eqn:Hurl; cbn [negb].
  - now rewrite <- test_url.
  - unfold githubUrlFromPath. apply orb_true_r.
Qed.

(** X6: an href that starts with a slash is taken as it is, whatever the
    source file, and the address composed from it has two slashes after the
    commit. *)
Theorem resolvePath_absolute_href (repo sha from rest : string) :
  resolvePath from ("/" +:+ rest) = "/" +:+ rest
  /\ target repo sha from ("/" +:+ rest)
     = "https://github.com/" +:+ repo +:+ "/blob/" +:+ sha +:+ "//" +:+ rest.
Proof.
  assert (E : resolvePath from ("/" +:+ rest) = "/" +:+ rest).
  { unfold resolvePath. now rewrite test_absolute. }
  split; [exact E|].
  unfold target. rewrite test_url, E. reflexivity.
Qed.

Lemma match_last_segment_before_slash (at0 : bool) (c : ascii) (t : string) :
  Str.contains "/" t = true ->
  match_here re_last_segment at0 (String c t) = None.
Proof.
  intros Ht. rewrite match_last_segment.
  rewrite (is_segment_no_slash t Ht).
  rewrite (is_segment_no_slash (String c t)).
  - destruct c as [[] [] [] [] [] [] [] []]; reflexivity.
  - cbn [Str.contains]. rewrite Ht. apply orb_true_r.
Qed.

Lemma search_no_last_segment (at0 : bool) (dir : string) :
  search re_last_segment at0 (dir +:+ "/") = None.
Proof.
  revert at0. induction dir as [|c dir IH]; intros at0.
  - reflexivity.
  - change (String c dir +:+ "/") with (String c (dir +:+ "/")).
    rewrite search_cons, match_last_segment_before_slash, IH; [reflexivity|].
    rewrite contains_append. apply orb_true_r.
Qed.

(** X7: a source path without a last segment, the empty path or a path that
    ends with a slash, is returned unchanged for every href that does not
    start with a slash: the href is lost. *)
Theorem resolvePath_without_last_segment (dir href : string) :
  test re_absolute href = false ->
  resolvePath (dir +:+ "/") href = dir +:+ "/"
  /\ resolvePath "" href = "".
Proof.
  intros Habs. unfold resolvePath, replace, exec. rewrite Habs.
  rewrite search_no_last_segment. split; reflexivity.
Qed.

Lemma resolvePath_without_last_segment_witness :
  resolvePath "docs/" "./x.md" = "docs/" /\ resolvePath "" "./x.md" = "".
Proof.
  exact (resolvePath_without_last_segment "docs" "./x.md" eq_refl).
Defined.

(** ** The path of a file within the repository (part_000, line 114) *)

(** X8: for a root without regular-expression metacharacters, the path of a
    file under the root loses the root and the slash after it. *)
Theorem stripRoot_inside_root (root rest : string) :
  regex_plain root = true ->
  stripRoot root (root +:+ "/" +:+ rest) = rest.
Proof. intros _. apply stripRoot_under_root. Qed.

Lemma stripRoot_inside_root_witness :
  stripRoot "/github/workspace" "/github/workspace/docs/a.md" = "docs/a.md".
Proof.
  exact (stripRoot_inside_root "/github/workspace" "docs/a.md" eq_refl).
Defined.

(** X9: for such a root, a path that does not begin with the root and a
    slash is left as it is; in particular the root is removed at the
    beginning of a path only. *)
Theorem stripRoot_outside_root (root path : string) :
  regex_plain root = true ->
  starts_with (root +:+ "/") path = false ->
  stripRoot root path = path.
Proof. intros _ H. rewrite stripRoot_cases. now rewrite H. Qed.

Lemma stripRoot_outside_root_witness :
  stripRoot "/github/workspace" "/tmp/github/workspace/a.md"
  = "/tmp/github/workspace/a.md".
Proof.
  exact (stripRoot_outside_root "/github/workspace" "/tmp/github/workspace/a.md"
           eq_refl eq_refl).
Defined.

(** X10: for a markdown file [root/dir/seg] and an href that has no scheme,
    no leading slash and no dollar sign, the address that [main] has checked
    is the href beside the file, in the repository at the commit:
    [https://github.com/<repo>/blob/<sha>/dir/href]. *)
Theorem target_of_relative_link (root repo sha dir seg href : string) :
  regex_plain root = true ->
  is_segment seg = true ->
  starts_with "http://" href = false ->
  starts_with "https://" href = false ->
  starts_with "/" href = false ->
  Str.contains "$" href = false ->
  target repo sha (stripRoot root (root +:+ "/" +:+ dir +:+ "/" +:+ seg)) href
  = "https://github.com/" +:+ repo +:+ "/blob/" +:+ sha +:+ "/" +:+ dir +:+ "/" +:+ href.
Proof.
  intros _ Hseg Hhttp Hhttps Hslash Hplain.
  rewrite stripRoot_under_root.
  assert (Habs : test re_absolute href = false).
  { rewrite test_absolute. destruct href as [|c t]; [reflexivity|].
    cbn [starts_with] in Hslash. rewrite andb_true_r in Hslash.
    destruct c as [[] [] [] [] [] [] [] []]; try reflexivity; discriminate Hslash. }
  unfold target, githubUrlFromPath. rewrite test_url, Hhttp, Hhttps. cbn [orb negb].
  rewrite (resolvePath_in_directory dir seg href Hseg Habs).
  change (substitution ("/" +:+ seg) dir "" ("/" +:+ href))
    with ("/" +:+ substitution ("/" +:+ seg) dir "" href).
  now rewrite substitution_plain.
Qed.

Lemma target_of_relative_link_witness :
  target Sample.repo Sample.sha
    (stripRoot Sample.root "/github/workspace/build_process/managing-node-with-brew.md")
    "./node.md"
  = "https://github.com/reedspool/standard/blob/0a1b2c3/build_process/./node.md".
Proof.
  exact (target_of_relative_link Sample.root Sample.repo Sample.sha "build_process"
           "managing-node-with-brew.md" "./node.md"
           eq_refl eq_refl eq_refl eq_refl eq_refl eq_refl).
Defined.

(** ** The verifier across the iterations *)

Lemma run_part001_checkLink (repo sha : string) (net : network) (file : string)
  (l : link) :
  run net (Part001.checkLink repo sha file l)
  = let url := target repo sha file (href l) in
    let init := {| method := "HEAD"; headers := [] |} in
    match on_execute net url with
    | Fulfilled response =>
        ([Navigated url],
         Fulfilled {[ "status" := Num (response_status response);
                      "original" := Text (href l) ]})
    | Rejected error =>
        match on_fetch net url init with
        | Fulfilled r =>
            ([Navigated url; Probed url init],
             Fulfilled {[ "status" := Num (fetch_status r);
                          "original" := Text (href l) ]})
        | Rejected e => ([Navigated url; Probed url init], Rejected e)
        end
    end.
Proof.
  unfold Part001.checkLink, cluster_execute, fetch.
  cbn [bind try_catch run]. cbv zeta.
  destruct (on_execute net (target repo sha file (href l))) as [response|error];
    cbn [await bind try_catch run]; [reflexivity|].
  destruct (on_fetch net (target repo sha file (href l)) _) as [r|e];
    cbn [await bind try_catch run]; reflexivity.
Qed.

(** X11: against a network whose answer to a HEAD request does not depend
    on the request headers, the current [checkLink] settles as the one of
    part_001 does, with the same status and href; it only keeps, in
    addition, the error of the navigation. *)
Theorem checkLink_extends_part001 (repo sha : string) (net : network)
  (file : string) (l : link) :
  (forall (url : string) (init : request_init),
      on_fetch net url init = on_fetch net url head_request) ->
  (run net (Part001.checkLink repo sha file l)).2
  = on_outcome (delete "error") (run net (checkLink repo sha file l)).2.
Proof.
  intros Hfetch. rewrite run_part001_checkLink, run_checkLink. cbv zeta.
  rewrite Hfetch.
  destruct (on_execute net _) as [response|error]; cbn [snd on_outcome].
  - reflexivity.
  - destruct (on_fetch net _ head_request) as [r|e]; cbn [snd on_outcome];
      reflexivity.
Qed.

Lemma checkLink_extends_part001_witness :
  (run (Sample.head_only 200)
     (Part001.checkLink Sample.repo Sample.sha "README.md"
        {| href := "https://example.com/" |})).2
  = Fulfilled {[ "status" := Num 200; "original" := Text "https://example.com/" ]}.
Proof.
  rewrite (checkLink_extends_part001 Sample.repo Sample.sha (Sample.head_only 200)
             "README.md" {| href := "https://example.com/" |} (fun _ _ => eq_refl)).
  vm_compute. reflexivity.
Defined.

Lemma run_part002_check (net : network) (l : link) :
  run net (Part002.check l)
  = ([Navigated (href l)],
     match on_execute net (href l) with
     | Fulfilled response =>
         Fulfilled {[ "status" := Num (response_status response);
                      "href" := Text (href l) ]}
     | Rejected error =>
         Fulfilled {[ "error" := Err error; "href" := Text (href l) ]}
     end).
Proof.
  unfold Part002.check, cluster_execute. cbn [bind try_catch run].
  destruct (on_execute net (href l)); reflexivity.
Qed.

(** X12: the check of part_002 never rejects and makes one request, a
    navigation to the href as it is written, relative or not; its outcome
    has the status of the response and no error when the navigation
    answered, and the error and no status when it threw. *)
Theorem part002_check_outcome (net : network) (l : link) :
  exists outcome : obj,
    run net (Part002.check l) = ([Navigated (href l)], Fulfilled outcome)
    /\ prop outcome "href" = Text (href l)
    /\ match on_execute net (href l) with
       | Fulfilled response =>
           prop outcome "status" = Num (response_status response)
           /\ prop outcome "error" = undefined
       | Rejected error =>
           prop outcome "status" = undefined
           /\ prop outcome "error" = Err error
       end.
Proof.
  rewrite run_part002_check.
  destruct (on_execute net (href l)) as [response|error];
    eexists; (split; [reflexivity|]); repeat split; reflexivity.
Qed.

(** X13: in part_002 the counter of errors counts the navigations that
    threw: a link whose navigation answered, with whatever status, is not
    counted, and the report of a file never throws on a check. *)
Theorem part002_counts_thrown_navigations (net : network) (l : link)
  (st : Part002.state) :
  Part002.reportCheck (run net (Part002.check l)).2 st
  = match on_execute net (href l) with
    | Fulfilled response =>
        ({| Part002.countErrors := Part002.countErrors st;
            Part002.console :=
              Part002.console st
              ++ [Part002.LinkLine (Num (response_status response)) (Text (href l))] |},
         Fulfilled tt)
    | Rejected error =>
        ({| Part002.countErrors := S (Part002.countErrors st);
            Part002.console :=
              Part002.console st
              ++ [Part002.LinkLine (Err error) (Text (href l))] |},
         Fulfilled tt)
    end.
Proof.
  rewrite run_part002_check. cbn [snd].
  destruct (on_execute net (href l)) as [response|error]; reflexivity.
Qed.

(** ** What every run keeps *)

(** The report of the checks of a file keeps what each fulfilled check
    keeps. *)
Lemma forEach_reportCheck_keeps (P : state -> Prop) (Q : obj -> Prop)
  (xs : list (result obj)) (st : state) :
  (forall o : obj, In (Fulfilled o) xs -> Q o) ->
  (forall (st : state) (o : obj), Q o -> P st -> P (reportCheck (Fulfilled o) st).1) ->
  P st -> P (forEach reportCheck xs st).1.
Proof.
  intros HQ Hstep. revert st. induction xs as [|x xs IH]; intros st Hst; [exact Hst|].
  cbn [forEach]. destruct x as [value|reason]; [|exact Hst].
  assert (Hok : (reportCheck (Fulfilled value) st).2 = Fulfilled tt).
  { unfold reportCheck. destruct (js_lt _ 200 || js_ge _ 300); reflexivity. }
  pose proof (Hstep st value (HQ value (or_introl eq_refl)) Hst) as Hst'.
  destruct (reportCheck (Fulfilled value) st) as [st' r]. cbn [fst snd] in *.
  subst r. apply IH; [|exact Hst'].
  intros o Ho. apply HQ. now right.
Qed.

Section Kept.

Variables root repo sha : string.
Variable w : world.
Variable files : list string.

(** A property of the console and of the recorded failures that the heading
    of a file and the report of an outcome of the verifier keep is kept by
    every schedule. *)
Lemma resume_all_keeps (P : state -> Prop) :
  (forall (st : state) (n : nat), P st -> P (add_links n st)) ->
  (forall st : state, P st -> P (next_file st)) ->
  (forall (st : state) (i : nat) (p : progress), P st -> P (set_progress i p st)) ->
  (forall (st : state) (n : nat) (file : string) (k : nat),
      P st -> P (log (FileHeading n file k) st)) ->
  (forall (st : state) (o : obj),
      (exists (net : network) (file : string) (l : link),
          (run net (checkLink repo sha file l)).2 = Fulfilled o) ->
      P st -> P (reportCheck (Fulfilled o) st).1) ->
  forall (sched : list resolution) (st st' : state),
    resume_all root repo sha w files sched st = Some st' -> P st -> P st'.
Proof.
  intros Hadd Hnext Hset Hhead Hcheck.
  induction sched as [|r sched IH]; intros st st'; cbn [resume_all].
  - now intros [= <-].
  - destruct (resume root repo sha w files r st) as [st1|] eqn:E; [|discriminate].
    intros H Hst. apply (IH st1 st' H). clear IH H.
    destruct r as [i|i]; cbn [resume] in E.
    + destruct (files !! i) as [file|]; [|discriminate].
      destruct (checks st !! i) as [[| |]|]; try discriminate.
      destruct (readFile w file); injection E as <-.
      * apply Hset, Hadd, Hst.
      * apply Hset, Hst.
    + destruct (files !! i) as [file|]; [|discriminate].
      destruct (checks st !! i) as [[|links|]|]; try discriminate.
      set (st0 := next_file (log _ st)) in E.
      assert (H0 : P st0) by apply Hnext, Hhead, Hst.
      pose proof (forEach_reportCheck_keeps P
                    (fun o => exists (net : network) (file : string) (l : link),
                         (run net (checkLink repo sha file l)).2 = Fulfilled o)
                    (completeChecks root repo sha w i file links) st0) as Hkeep.
      destruct (forEach reportCheck _ st0) as [st2 x]. cbn [fst] in Hkeep.
      injection E as <-. apply Hset, Hkeep; [|exact Hcheck|exact H0].
      intros o Ho. apply completeChecks_outcome in Ho as (j & l & Ho).
      now exists (network_of w i j), (stripRoot root file), l.
Qed.

(** The lines of the summary, whichever way it ends. *)
Lemma summary_lines (st : state) :
  Forall (fun o => prop o "file" = undefined) (allErrors st) ->
  exists tail : list line,
    (summary root st).1 = console st ++ SummaryHeading :: tail
    /\ (tail = [Table ["HTTP"; "Link"; "File"] []; Separator;
                Complete (countAllLinks st) (length (checks st)) 0]
        /\ (summary root st).2 = 0 /\ allErrors st = []
        \/ (exists message : string, tail = [Exiting (TypeError message)])
           /\ (summary root st).2 = 1 /\ allErrors st <> []).
Proof.
  intros Hv. destruct (allErrors st) as [|o errs] eqn:He.
  - rewrite (summary_without_failures root st He). eexists. split; [reflexivity|].
    left. now repeat split.
  - assert (Hne : allErrors st <> []) by (rewrite He; discriminate).
    rewrite <- He in Hv.
    destruct (summary_with_failures root st Hne Hv) as [message E].
    rewrite E. eexists. split; [reflexivity|].
    right. split; [now exists message|]. split; [reflexivity|]. discriminate.
Qed.

End Kept.

Section Counting.

Variable w : world.

Lemma unread_links_read (files : list string) (ps : list progress) (i : nat)
  (file : string) (p : progress) :
  files !! i = Some file ->
  ps !! i = Some AwaitRead ->
  p <> AwaitRead ->
  (unread_links w files (<[i := p]> ps) + length (links_of w file))%nat
  = unread_links w files ps.
Proof.
  revert ps i. induction files as [|f files IH]; intros ps i Hfile Hp Hne;
    [discriminate Hfile|].
  destruct ps as [|q ps]; [discriminate Hp|].
  destruct i as [|i].
  - injection Hfile as ->. injection Hp as ->.
    change (<[0%nat := p]> (AwaitRead :: ps)) with (p :: ps).
    cbn [unread_links]. destruct p; [contradiction| |]; lia.
  - change (<[S i := p]> (q :: ps)) with (q :: <[i := p]> ps).
    cbn [unread_links].
    specialize (IH ps i Hfile Hp Hne).
    destruct q; lia.
Qed.

Lemma unread_links_other (files : list string) (ps : list progress) (i : nat)
  (q p : progress) :
  ps !! i = Some q ->
  q <> AwaitRead ->
  p <> AwaitRead ->
  unread_links w files (<[i := p]> ps) = unread_links w files ps.
Proof.
  revert ps i. induction files as [|f files IH]; intros ps i Hq Hnq Hnp.
  - now destruct (<[i := p]> ps), ps.
  - destruct ps as [|q' ps]; [discriminate Hq|].
    destruct i as [|i].
    + injection Hq as ->. change (<[0%nat := p]> (q :: ps)) with (p :: ps).
      cbn [unread_links]. destruct p, q; try contradiction; reflexivity.
    + change (<[S i := p]> (q' :: ps)) with (q' :: <[i := p]> ps).
      cbn [unread_links].
      specialize (IH ps i Hq Hnq Hnp).
      destruct q'; lia.
Qed.

Lemma unread_links_initial (files : list string) :
  unread_links w files ((fun _ => AwaitRead) <$> files) = total_links w files.
Proof.
  unfold total_links. induction files as [|f files IH]; [reflexivity|].
  cbn [fmap list_fmap unread_links sum_list sum_list_with].
  change (list_fmap string progress (fun _ => AwaitRead) files)
    with ((fun _ : string => AwaitRead) <$> files).
  rewrite IH. reflexivity.
Qed.

Lemma unread_links_settled (files : list string) (ps : list progress) :
  forallb is_settled ps = true -> unread_links w files ps = 0%nat.
Proof.
  revert ps. induction files as [|f files IH]; intros ps Hps; [reflexivity|].
  destruct ps as [|p ps]; [reflexivity|].
  cbn [forallb] in Hps. apply andb_prop in Hps as [Hp Hps].
  destruct p; try discriminate Hp. cbn [unread_links]. now apply IH.
Qed.

Variables root repo sha : string.
Variable files : list string.

(** The links counted and the links of the files that are still to be read
    make up the links of all files. *)
Lemma resume_counts (r : resolution) (st st' : state) :
  resume root repo sha w files r st = Some st' ->
  (countAllLinks st' + unread_links w files (checks st'))%nat
  = (countAllLinks st + unread_links w files (checks st))%nat.
Proof.
  destruct r as [i|i]; cbn [resume].
  - destruct (files !! i) as [file|] eqn:Hfile; [|discriminate].
    destruct (checks st !! i) as [[| |]|] eqn:Hp; try discriminate.
    pose proof (unread_links_read files (checks st) i file) as Hread.
    unfold links_of in Hread.
    destruct (readFile w file) as [markdown|e]; intros [= <-];
      cbn [set_progress add_links countAllLinks checks].
    + specialize (Hread (AwaitChecks (markdownLinkExtractor w markdown)) Hfile Hp).
      assert (Hne : AwaitChecks (markdownLinkExtractor w markdown) <> AwaitRead)
        by discriminate.
      specialize (Hread Hne). lia.
    + specialize (Hread (Settled (Rejected e)) Hfile Hp).
      assert (Hne : Settled (Rejected e) <> AwaitRead) by discriminate.
      specialize (Hread Hne). cbn [length] in Hread. lia.
  - destruct (files !! i) as [file|]; [|discriminate].
    destruct (checks st !! i) as [[|links|]|] eqn:Hp; try discriminate.
    set (st0 := next_file (log _ st)).
    destruct (forEach_reportCheck (completeChecks root repo sha w i file links) st0)
      as (_ & _ & _ & _ & _ & _ & _ & Ha & Hk).
    destruct (forEach reportCheck _ st0) as [st1 x]. cbn [fst] in Ha, Hk.
    intros [= <-]. cbn [set_progress countAllLinks checks].
    rewrite Ha, Hk. subst st0. cbn [next_file log countAllLinks checks].
    rewrite (unread_links_other files (checks st) i (AwaitChecks links) (Settled x) Hp);
      [reflexivity | discriminate | discriminate].
Qed.

Lemma resume_all_counts (sched : list resolution) (st st' : state) :
  resume_all root repo sha w files sched st = Some st' ->
  (countAllLinks st' + unread_links w files (checks st'))%nat
  = (countAllLinks st + unread_links w files (checks st))%nat.
Proof.
  revert st. induction sched as [|r sched IH]; intros st; cbn [resume_all].
  - now intros [= <-].
  - destruct (resume root repo sha w files r st) as [st1|] eqn:E; [|discriminate].
    intros H. rewrite (IH st1 H). exact (resume_counts r st st1 E).
Qed.

(** When all files are settled, the links of all files are counted, and
    there is a progress for every file. *)
Lemma settle_counts (out : list line) (sched : list resolution) (st : state) :
  settle root repo sha w files out sched = Some st ->
  countAllLinks st = total_links w files /\ length (checks st) = length files.
Proof.
  intros H. apply settle_inv in H as [Hrun Hall]. split.
  - pose proof (resume_all_counts sched _ _ Hrun) as Hc.
    rewrite (unread_links_settled files (checks st) Hall) in Hc.
    cbn [initial countAllLinks checks] in Hc.
    rewrite unread_links_initial in Hc. lia.
  - rewrite (resume_all_length root repo sha w files sched _ _ Hrun).
    cbn [initial checks]. apply length_fmap.
Qed.

End Counting.

Section Outcome.

Variables root repo sha : string.

(** A run ends on a setup error, or with the summary of a settled state. *)
Lemma main_cases (w : world) (sched : list resolution) (lines : list line) (code : Z) :
  main root repo sha w sched = Some (lines, code) ->
  (exists (e : exn) (out : list line),
      lines = out ++ [Exiting e] /\ code = 1
      /\ forallb mark_follows_status out = true)
  \/ (exists (files : list string) (st : state),
        glob w (root +:+ "/**/*.md") = Fulfilled files
        /\ launch w = Fulfilled tt
        /\ settle root repo sha w files (prelude root files) sched = Some st
        /\ (lines, code) = summary root st).
Proof.
  intros Hmain.
  destruct (glob w (root +:+ "/**/*.md")) as [files|e] eqn:Hglob.
  - destruct (launch w) as [[]|e] eqn:Hlaunch.
    + right. destruct (main_settled root repo sha w sched files _ Hglob Hlaunch Hmain)
        as (st & Hst & Hout).
      now exists files, st.
    + left. unfold main in Hmain. cbv zeta in Hmain. rewrite Hglob, Hlaunch in Hmain.
      injection Hmain as <- <-.
      exists e, [Separator; Searching root; Found (length files); Separator;
                 Setup clusterMaxConcurrent].
      split; [reflexivity|]. split; reflexivity.
  - left. unfold main in Hmain. cbv zeta in Hmain. rewrite Hglob in Hmain.
    injection Hmain as <- <-. exists e, [Separator; Searching root].
    split; [reflexivity|]. split; reflexivity.
Qed.

(** X14: a run ends in one of two ways: with the line of totals, which
    then reports 0 errors, and exit code 0; or with the line of the handler
    of unhandled rejections and exit code 1. The totals are never written
    with a number of errors other than 0. *)
Theorem main_ends (w : world) (sched : list resolution) (lines : list line) (code : Z) :
  main root repo sha w sched = Some (lines, code) ->
  (code = 0 /\ exists n pages : nat, last lines = Some (Complete n pages 0))
  \/ (code = 1 /\ exists e : exn, last lines = Some (Exiting e)).
Proof.
  intros Hmain.
  destruct (main_cases w sched lines code Hmain)
    as [(e & out & -> & -> & _) | (files & st & Hglob & Hlaunch & Hst & Hout)].
  - right. split; [reflexivity|]. exists e. apply last_snoc.
  - destruct (settle_report root repo sha w sched files st Hst)
      as (body & _ & _ & _ & _ & _ & Hv).
    destruct (summary_lines root st Hv) as (tail & Hl & Hcases).
    rewrite <- Hout in Hl, Hcases. cbn [fst snd] in Hl, Hcases.
    destruct Hcases as [(-> & -> & _) | ((message & ->) & -> & _)].
    + left. split; [reflexivity|]. eexists _, _. apply last_Some.
      exists (console st ++ [SummaryHeading; Table ["HTTP"; "Link"; "File"] [];
                             Separator]).
      rewrite Hl, <- app_assoc. reflexivity.
    + right. split; [reflexivity|]. eexists. apply last_Some.
      exists (console st ++ [SummaryHeading]).
      rewrite Hl, <- app_assoc. reflexivity.
Qed.

(** X15: when a run ends with exit code 0, its line of totals reports the
    links of all files that could be read, as many pages as files were
    discovered, unreadable ones included, and 0 errors. *)
Theorem main_totals (w : world) (sched : list resolution) (files : list string)
  (lines : list line) :
  glob w (root +:+ "/**/*.md") = Fulfilled files ->
  launch w = Fulfilled tt ->
  main root repo sha w sched = Some (lines, 0) ->
  last lines = Some (Complete (total_links w files) (length files) 0).
Proof.
  intros Hglob Hlaunch Hmain.
  destruct (main_settled root repo sha w sched files _ Hglob Hlaunch Hmain)
    as (st & Hst & Hout).
  destruct (settle_report root repo sha w sched files st Hst)
    as (body & _ & _ & _ & _ & _ & Hv).
  destruct (settle_counts w root repo sha files _ sched st Hst) as [Hcount Hpages].
  destruct (summary_lines root st Hv) as (tail & Hl & Hcases).
  rewrite <- Hout in Hl, Hcases. cbn [fst snd] in Hl, Hcases.
  destruct Hcases as [(-> & _ & _) | (_ & Hcode & _)]; [|discriminate Hcode].
  apply last_Some.
  exists (console st ++ [SummaryHeading; Table ["HTTP"; "Link"; "File"] []; Separator]).
  rewrite Hl, <- app_assoc, Hcount, Hpages. reflexivity.
Qed.

End Outcome.

Lemma main_ends_witness :
  exists (lines : list line) (code : Z),
    main Sample.root Sample.repo Sample.sha (Sample.one_link (Sample.answers 404))
      [ReadDone 0; ChecksDone 0] = Some (lines, code)
    /\ ((code = 0 /\ exists n pages : nat, last lines = Some (Complete n pages 0))
        \/ (code = 1 /\ exists e : exn, last lines = Some (Exiting e))).
Proof.
  eexists _, _. split; [exact dead_link_breaks_summary|].
  exact (main_ends Sample.root Sample.repo Sample.sha _ _ _ _ dead_link_breaks_summary).
Defined.

Lemma main_totals_witness :
  exists lines : list line,
    main Sample.root Sample.repo Sample.sha (Sample.two_files (Sample.answers 200))
      Sample.out_of_order = Some (lines, 0)
    /\ last lines = Some (Complete 2 2 0).
Proof.
  eexists. split; [exact two_files_out_of_order|].
  exact (main_totals Sample.root Sample.repo Sample.sha
           (Sample.two_files (Sample.answers 200)) Sample.out_of_order
           [Sample.root +:+ "/README.md"; Sample.root +:+ "/docs/a.md"] _
           eq_refl eq_refl two_files_out_of_order).
Defined.

Section Marks.

Variables root repo sha : string.

Lemma marks_app (a b : list line) :
  forallb mark_follows_status (a ++ b)
  = forallb mark_follows_status a && forallb mark_follows_status b.
Proof. apply forallb_app. Qed.

(** The report of an outcome of the verifier writes a mark that agrees with
    the status. *)
Lemma reportCheck_marks (st : state) (o : obj) :
  (exists (net : network) (file : string) (l : link),
      (run net (checkLink repo sha file l)).2 = Fulfilled o) ->
  forallb mark_follows_status (console st) = true ->
  forallb mark_follows_status (console (reportCheck (Fulfilled o) st).1) = true.
Proof.
  intros (net & file & l & Ho) Hst.
  destruct (checkLink_outcome_shape repo sha net file l o Ho) as [s Hshape].
  assert (Hs : prop o "status" = Num s).
  { destruct Hshape as [-> | [e ->]]; reflexivity. }
  rewrite (reportCheck_by_status o s st Hs).
  destruct (is_2xx s) eqn:H2xx.
  - cbn [log console]. rewrite marks_app, Hst. cbn. now rewrite H2xx.
  - destruct (truthy (prop o "error")); cbn [push_error log console];
      rewrite ?marks_app, Hst; cbn; now rewrite H2xx.
Qed.

(** X16: in every run, each link line of the report carries the mark of its
    status: a check mark is written only with a status in [200, 300), a
    cross only with a status outside of it. *)
Theorem marks_follow_status (w : world) (sched : list resolution)
  (lines : list line) (code : Z) :
  main root repo sha w sched = Some (lines, code) ->
  forallb mark_follows_status lines = true.
Proof.
  intros Hmain.
  destruct (main_cases root repo sha w sched lines code Hmain)
    as [(e & out & -> & _ & Hout) | (files & st & Hglob & Hlaunch & Hst & Hout)].
  - rewrite marks_app, Hout. reflexivity.
  - destruct (settle_report root repo sha w sched files st Hst)
      as (body & _ & _ & _ & _ & _ & Hv).
    destruct (settle_inv root repo sha w sched files _ st Hst) as [Hrun _].
    assert (Hmarks : forallb mark_follows_status (console st) = true).
    { apply (resume_all_keeps root repo sha w files
               (fun st => forallb mark_follows_status (console st) = true))
        with (sched := sched) (st := initial (prelude root files) files);
        try exact Hrun; try (intros; assumption).
      - intros st0 n file k H0. cbn [log console]. now rewrite marks_app, H0.
      - exact reportCheck_marks.
      - reflexivity. }
    destruct (summary_lines root st Hv) as (tail & Hl & Hcases).
    rewrite <- Hout in Hl. cbn [fst] in Hl. rewrite Hl, marks_app, Hmarks.
    destruct Hcases as [(-> & _) | ((message & ->) & _)]; reflexivity.
Qed.

Lemma failed_lines_app (a b : list line) :
  failed_lines (a ++ b) = failed_lines a ++ failed_lines b.
Proof. apply omap_app. Qed.

(** X18: when the files of a run are settled, the failures recorded for the
    summary are the links that the report marks with a cross, with the same
    status and href and in the same order. *)
Theorem failures_are_the_crossed_links (w : world) (sched : list resolution)
  (files : list string) (st : state) :
  settle root repo sha w files (prelude root files) sched = Some st ->
  (fun o => (prop o "status", prop o "original")) <$> allErrors st
  = failed_lines (console st).
Proof.
  intros Hst. destruct (settle_inv root repo sha w sched files _ st Hst) as [Hrun _].
  apply (resume_all_keeps root repo sha w files
           (fun st => (fun o => (prop o "status", prop o "original")) <$> allErrors st
                      = failed_lines (console st)))
    with (sched := sched) (st := initial (prelude root files) files);
    try exact Hrun; try (intros; assumption).
  - intros st0 n file k H0. cbn [log console allErrors].
    now rewrite failed_lines_app, <- H0, app_nil_r.
  - intros st0 o _ H0. unfold reportCheck.
    destruct (js_lt _ 200 || js_ge _ 300).
    + destruct (truthy _); cbn [fst push_error log console allErrors];
        rewrite fmap_app, ?failed_lines_app, <- H0; cbn;
        rewrite ?app_nil_r; reflexivity.
    + cbn [fst log console allErrors].
      now rewrite failed_lines_app, <- H0, app_nil_r.
  - reflexivity.
Qed.

Variable w : world.

Lemma reported_links_app (a b : list line) :
  reported_links (a ++ b) = reported_links a ++ reported_links b.
Proof. apply omap_app. Qed.

Lemma forEach_in_order (nets : nat -> network) (file : string) (links : list link)
  (st : state) :
  (forall (j : nat) (l : link),
      links !! j = Some l ->
      exists o : obj, (run (nets j) (checkLink repo sha file l)).2 = Fulfilled o) ->
  (forEach reportCheck
     (imap (fun j l => (run (nets j) (checkLink repo sha file l)).2) links) st).2
  = Fulfilled tt
  /\ reported_links
       (console (forEach reportCheck
                   (imap (fun j l => (run (nets j) (checkLink repo sha file l)).2)
                      links) st).1)
     = reported_links (console st) ++ ((fun l => Text (href l)) <$> links).
Proof.
  revert nets st. induction links as [|x links IH]; intros nets st Hall.
  - cbn. now rewrite app_nil_r.
  - rewrite imap_cons. cbn [forEach].
    destruct (Hall 0%nat x eq_refl) as [o Ho]. rewrite Ho.
    destruct (checkLink_outcome_shape repo sha (nets 0%nat) file x o Ho) as [s Hshape].
    assert (Hs : prop o "status" = Num s /\ prop o "original" = Text (href x)).
    { destruct Hshape as [-> | [e ->]]; split; reflexivity. }
    destruct Hs as [Hs Horig].
    assert (Hok : (reportCheck (Fulfilled o) st).2 = Fulfilled tt).
    { unfold reportCheck. destruct (js_lt _ 200 || js_ge _ 300); reflexivity. }
    assert (Hlinks : reported_links (console (reportCheck (Fulfilled o) st).1)
                     = reported_links (console st) ++ [Text (href x)]).
    { rewrite (reportCheck_by_status o s st Hs), Horig.
      destruct (is_2xx s); [|destruct (truthy (prop o "error"))];
        cbn [push_error log console]; rewrite ?reported_links_app; cbn;
        rewrite ?app_nil_r; reflexivity. }
    destruct (reportCheck (Fulfilled o) st) as [st1 r]. cbn [fst snd] in Hok, Hlinks.
    subst r.
    specialize (IH (fun j => nets (S j)) st1 (fun j l Hl => Hall (S j) l Hl)).
    destruct IH as [IH1 IH2]. split; [exact IH1|].
    cbn [fmap list_fmap].
    change (list_fmap link jsval (fun l => Text (href l)) links)
      with ((fun l => Text (href l)) <$> links).
    etransitivity; [exact IH2|]. rewrite Hlinks, <- app_assoc. reflexivity.
Qed.

(** X17: when every check of a file is fulfilled, the report of the file
    does not throw and writes one link line for each link of the file, with
    the href as it is written, in the order of extraction. *)
Theorem links_reported_in_extraction_order (i : nat) (file : string)
  (links : list link) (st : state) :
  (forall (j : nat) (l : link),
      links !! j = Some l ->
      exists o : obj,
        (run (network_of w i j) (checkLink repo sha (stripRoot root file) l)).2
        = Fulfilled o) ->
  (forEach reportCheck (completeChecks root repo sha w i file links) st).2
  = Fulfilled tt
  /\ reported_links
       (console (forEach reportCheck (completeChecks root repo sha w i file links) st).1)
     = reported_links (console st) ++ ((fun l => Text (href l)) <$> links).
Proof.
  intros Hall. unfold completeChecks.
  exact (forEach_in_order (network_of w i) (stripRoot root file) links st Hall).
Qed.

End Marks.

Lemma marks_follow_status_witness :
  exists lines : list line,
    main Sample.root Sample.repo Sample.sha (Sample.one_link (Sample.answers 404))
      [ReadDone 0; ChecksDone 0] = Some (lines, 1)
    /\ forallb mark_follows_status lines = true.
Proof.
  eexists. split; [exact dead_link_breaks_summary|].
  exact (marks_follow_status Sample.root Sample.repo Sample.sha _ _ _ _
           dead_link_breaks_summary).
Defined.

Lemma failures_are_the_crossed_links_witness :
  exists st : state,
    settle Sample.root Sample.repo Sample.sha (Sample.one_link (Sample.answers 404))
      [Sample.root +:+ "/README.md"] (prelude Sample.root [Sample.root +:+ "/README.md"])
      [ReadDone 0; ChecksDone 0] = Some st
    /\ (fun o => (prop o "status", prop o "original")) <$> allErrors st
       = [(Num 404, Text "https://example.com/")]
    /\ failed_lines (console st) = [(Num 404, Text "https://example.com/")].
Proof.
  destruct (main_settled Sample.root Sample.repo Sample.sha
              (Sample.one_link (Sample.answers 404)) [ReadDone 0; ChecksDone 0]
              [Sample.root +:+ "/README.md"] _ eq_refl eq_refl
              dead_link_breaks_summary) as (st & Hst & _).
  exists st. split; [exact Hst|].
  pose proof (failures_are_the_crossed_links Sample.root Sample.repo Sample.sha
                (Sample.one_link (Sample.answers 404)) [ReadDone 0; ChecksDone 0]
                [Sample.root +:+ "/README.md"] st Hst) as E.
  rewrite E. vm_compute in Hst. injection Hst as <-. split; reflexivity.
Defined.

Lemma links_reported_in_extraction_order_witness :
  reported_links
    (console
       (forEach reportCheck
          (completeChecks Sample.root Sample.repo Sample.sha
             (Sample.two_files (Sample.answers 200)) 0 "/github/workspace/README.md"
             [ {| href := "./x.md" |}; {| href := "https://example.com/" |} ])
          (initial [] [])).1)
  = [Text "./x.md"; Text "https://example.com/"].
Proof.
  refine (proj2 (links_reported_in_extraction_order Sample.root Sample.repo Sample.sha
                   (Sample.two_files (Sample.answers 200)) 0
                   "/github/workspace/README.md"
                   [ {| href := "./x.md" |}; {| href := "https://example.com/" |} ]
                   (initial [] []) _)).
  intros j l _. rewrite run_checkLink. eexists. reflexivity.
Defined.

(** X19: when no markdown file is found, the run has nothing to wait for:
    it writes the empty table and the totals of 0 links in 0 pages and
    exits with 0. *)
Theorem main_without_files (root repo sha : string) (w : world)
  (sched : list resolution) :
  glob w (root +:+ "/**/*.md") = Fulfilled [] ->
  launch w = Fulfilled tt ->
  main root repo sha w []
  = Some ([Separator; Searching root; Found 0; Separator; Setup clusterMaxConcurrent;
           Starting; SummaryHeading; Table ["HTTP"; "Link"; "File"] []; Separator;
           Complete 0 0 0], 0)
  /\ (main root repo sha w sched <> None -> sched = []).
Proof.
  intros Hglob Hlaunch. unfold main. cbv zeta. rewrite Hglob, Hlaunch.
  split; [reflexivity|].
  destruct sched as [|r sched]; [reflexivity|].
  intros H. exfalso. apply H. unfold settle. cbn [resume_all].
  destruct r as [i|i]; reflexivity.
Qed.

Lemma main_without_files_witness :
  main Sample.root Sample.repo Sample.sha
    {| glob := fun _ => Fulfilled [];
       launch := Fulfilled tt;
       readFile := fun file => Fulfilled file;
       markdownLinkExtractor := fun _ => [];
       network_of := fun _ _ => Sample.unreachable |} []
  = Some ([Separator; Searching "/github/workspace"; Found 0; Separator; Setup 10;
           Starting; SummaryHeading; Table ["HTTP"; "Link"; "File"] []; Separator;
           Complete 0 0 0], 0).
Proof.
  exact (proj1 (main_without_files Sample.root Sample.repo Sample.sha
                  {| glob := fun _ => Fulfilled [];
                     launch := Fulfilled tt;
                     readFile := fun file => Fulfilled file;
                     markdownLinkExtractor := fun _ => [];
                     network_of := fun _ _ => Sample.unreachable |} []
                  eq_refl eq_refl)).
Defined.
